(** * info-ground: the object encoder and the training loop

    A shallow embedding of [exp/ground/models/object_encoder.py] and
    [exp/ground/train.py], and the properties of the specification that
    concern them.

    Conventions of the embedding.
    - Python floats and tensor entries are idealised as exact rationals
      ([Qc]); rounding, infinities and NaN are outside the model.
    - A tensor of rank 3 is a list of lists of lists; an extent that follows
      an empty one is therefore not represented.
    - Neural sub-modules that are not part of these two files (the linear
      input layer, the Transformer context layer, the criteria, the caption
      encoder, the optimiser update) are parameters.
    - Side effects (layer calls, backward passes, tensorboard scalars,
      [torch.save]) are recorded as a trace of events, in program order. *)

From Stdlib Require Import QArith Qcanon ZArith Sorted.
From stdpp Require Import base list strings numbers option pretty.

Open Scope Qc_scope.

(** ** Tensors *)

Abbreviation Tensor1 := (list Qc).
Abbreviation Tensor2 := (list Tensor1).
Abbreviation Tensor3 := (list Tensor2).

(** A boolean mask of shape [B x T]. *)
Abbreviation Mask := (list (list bool)).

(** One dimension of torch's broadcasting rule for a binary element-wise
    operation: the two extents are equal, or one of them is 1; anything else
    is a [RuntimeError], rendered as [None]. *)
Definition broadcast {A B C} (f : A → B → option C)
    (x : list A) (y : list B) : option (list C) :=
  if decide (length x = length y) then mapM (λ ab, f ab.1 ab.2) (zip x y)
  else match x, y with
       | [a], _ => mapM (f a) y
       | _, [b] => mapM (λ a, f a b) x
       | _, _ => None
       end.

Definition ew0 (f : Qc → Qc → Qc) (a b : Qc) : option Qc := Some (f a b).
Definition ew1 (f : Qc → Qc → Qc) : Tensor1 → Tensor1 → option Tensor1 :=
  broadcast (ew0 f).
Definition ew2 (f : Qc → Qc → Qc) : Tensor2 → Tensor2 → option Tensor2 :=
  broadcast (ew1 f).
Definition ew3 (f : Qc → Qc → Qc) : Tensor3 → Tensor3 → option Tensor3 :=
  broadcast (ew2 f).

(** [x * y] and [x + y] on rank-3 tensors. *)
Definition tmul : Tensor3 → Tensor3 → option Tensor3 := ew3 Qcmult.
Definition tadd : Tensor3 → Tensor3 → option Tensor3 := ew3 Qcplus.

(** [c - x] for a Python scalar [c]. *)
Definition rsub (c : Qc) (x : Tensor3) : Tensor3 :=
  map (map (map (λ v, c - v))) x.

(** [mask.unsqueeze(2).float()]: shape [B x T] becomes [B x T x 1], [True]
    becomes [1.0] and [False] becomes [0.0]. *)
Definition bool_to_float (b : bool) : Qc := if b then 1 else 0.
Definition unsqueeze2_float (m : Mask) : Tensor3 :=
  map (map (λ b, [bool_to_float b])) m.

(** A rank-1 parameter taking part in a rank-3 operation is aligned on the
    last dimension: shape [D] is read as [1 x 1 x D]. *)
Definition align3 (v : Tensor1) : Tensor3 := [[v]].

(** [x.size()] of a rank-3 tensor. *)
Definition size3 (x : Tensor3) : nat * nat * nat :=
  let T := match x with r :: _ => length r | [] => 0%nat end in
  let D := match x with (v :: _) :: _ => length v | _ => 0%nat end in
  (length x, T, D).

(** [x.view(-1,D)] of a [B x T x D] tensor: the first two dimensions are
    merged. *)
Definition view_rows (x : Tensor3) : Tensor2 := concat x.

(** [y.view(B,T,-1)] of a tensor with [B*T] rows. *)
Fixpoint chunks (B T : nat) (y : Tensor2) : Tensor3 :=
  match B with
  | O => []
  | S B' => take T y :: chunks B' T (drop T y)
  end.

Definition view_BT (B T : nat) (y : Tensor2) : option Tensor3 :=
  if decide (length y = (B * T)%nat) then Some (chunks B T y) else None.

(** Shapes, as predicates. *)
Definition has_shape2 {A} (B T : nat) (m : list (list A)) : Prop :=
  length m = B ∧ Forall (λ r, length r = T) m.
Definition has_shape3 (B T D : nat) (x : Tensor3) : Prop :=
  length x = B ∧ Forall (λ r, length r = T ∧ Forall (λ v, length v = D) r) x.

(** The entry of a [B x T x ...] nested list at batch index [b] and
    position [t]. *)
Definition at2 {A} (x : list (list A)) (b t : nat) : option A :=
  r ← x !! b; r !! t.

(** ** The object encoder *)

Module ObjectEncoder.

Record ContextLayerOutput := {
  last_hidden_states : Tensor3;
  attention : option Tensor3
}.

(** The module's state: the two sub-layers (given by what they compute;
    [None] is an exception raised inside the layer) and the two learned
    substitution embeddings. *)
Record t := {
  input_layer : Tensor2 → option Tensor2;
  context_layer : Tensor3 → option ContextLayerOutput;
  pad_feat : Tensor1;
  mask_feat : Tensor1
}.

(** [mask*feat + (1-mask)*object_features] *)
Definition substitute (mask : Tensor3) (feat : Tensor1)
    (object_features : Tensor3) : option Tensor3 :=
  a ← tmul mask (align3 feat);
  b ← tmul (rsub 1 mask) object_features;
  tadd a b.

Definition preprocess_object_features (self : t)
    (object_features : Tensor3) (object_mask pad_mask : option Mask)
    : option Tensor3 :=
  object_features ←
    match object_mask with
    | Some object_mask =>
        let object_mask := unsqueeze2_float object_mask in
        substitute object_mask (mask_feat self) object_features
    | None => Some object_features
    end;
  object_features ←
    match pad_mask with
    | Some pad_mask =>
        let pad_mask := unsqueeze2_float pad_mask in
        substitute pad_mask (pad_feat self) object_features
    | None => Some object_features
    end;
  Some object_features.

(** Calls of the sub-layers, with the tensor each one is fed. *)
Inductive call :=
| CallInputLayer (x : Tensor2)
| CallContextLayer (x : Tensor3).

(** What [forward] returns: a pair when the context layer reports
    attention, the context features alone otherwise. *)
Inductive output :=
| WithAttention (object_context_features attention : Tensor3)
| FeaturesOnly (object_context_features : Tensor3).

Definition forward (self : t) (object_features : Tensor3)
    (object_mask pad_mask : option Mask) : list call * option output :=
  match preprocess_object_features self object_features
          object_mask pad_mask with
  | None => ([], None)
  | Some object_features =>
      let '(B, T, D) := size3 object_features in
      let flat := view_rows object_features in
      match input_layer self flat with
      | None => ([CallInputLayer flat], None)
      | Some hidden =>
          match view_BT B T hidden with
          | None => ([CallInputLayer flat], None)
          | Some transformer_input =>
              let trace :=
                [CallInputLayer flat; CallContextLayer transformer_input] in
              match context_layer self transformer_input with
              | None => (trace, None)
              | Some context_layer_output =>
                  let object_context_features :=
                    last_hidden_states context_layer_output in
                  match attention context_layer_output with
                  | Some attention =>
                      (trace, Some (WithAttention
                                      object_context_features attention))
                  | None =>
                      (trace, Some (FeaturesOnly object_context_features))
                  end
              end
          end
      end
  end.

(** Reading the calls of a forward pass: what each layer was fed. *)
Definition input_layer_inputs (calls : list call) : list Tensor2 :=
  omap (λ c, match c with CallInputLayer x => Some x | _ => None end) calls.
Definition context_layer_inputs (calls : list call) : list Tensor3 :=
  omap (λ c, match c with CallContextLayer x => Some x | _ => None end) calls.

(** The substitution at one position, for reference: where the mask bit is
    set the embedding is taken, elsewhere the feature is kept. *)
Definition choose (feat : Tensor1) (b : bool) (v : Tensor1) : Tensor1 :=
  if b then feat else v.

(** A small encoder to evaluate the definitions on: both layers are the
    identity and the context layer reports no attention. *)
Definition example_encoder : t :=
  {| input_layer := Some;
     context_layer := λ x, Some {| last_hidden_states := x;
                                    attention := None |};
     pad_feat := [Q2Qc (1 # 2); Q2Qc (1 # 4)];
     mask_feat := [Q2Qc (3 # 2); Q2Qc (3 # 4)] |}.
Definition example_features : Tensor3 :=
  [[[Q2Qc 5; Q2Qc 6]; [Q2Qc 7; Q2Qc 8]; [Q2Qc 9; Q2Qc 10]]].
Definition example_object_mask : Mask := [[true; true; false]].
Definition example_pad_mask : Mask := [[false; true; false]].

End ObjectEncoder.

(** ** The training loop *)

Module Train.

Inductive exn :=
| AssertionError (msg : string)
| NotImplementedError (msg : string)
| ZeroDivisionError.

(** The fields of [exp_const] that [train.py] reads. *)
Record ExpConst := {
  exp_name : string;
  model_dir : string;
  dataset : string;
  optimizer : string;
  lr : Qc;
  momentum : Qc;
  num_epochs : Z;
  log_step : Z;
  model_save_step : Z;
  val_step : Z;
  num_val_samples : option Z;
  self_sup_loss_wt : Qc;
  lang_sup_loss_wt : Qc;
  neg_noun_loss_wt : Qc;
  random_lang : bool;
  contextualize : bool
}.

Record ModelConst := { model_num : Z }.

Inductive Optimizer :=
| SGD (lr momentum : Qc)
| Adam (lr : Qc).

Inductive Dataset := CocoDataset | FlickrDataset.

(** The sub-models held by [model]. *)
Inductive Component :=
| object_encoder
| self_sup_criterion
| lang_sup_criterion
| cap_encoder.

(** The three loss terms of one forward pass. *)
Record LossTerms := {
  self_sup_loss : Qc;
  lang_sup_loss : Qc;
  neg_noun_loss : Qc
}.

(** The dictionary returned by [eval_model]. *)
Record EvalResults := {
  res_self_sup_loss : Qc;
  res_lang_sup_loss : Qc;
  res_neg_noun_loss : Qc;
  total_loss : Qc
}.

(** One batch of a loader: [data['features']], [data['object_mask']],
    [data['pad_mask']] and the caption fields (caption, noun and adjective
    token ids, noun id, negative noun features). *)
Record Batch {Annotations : Type} := {
  features : Tensor3;
  object_mask : Mask;
  pad_mask : Mask;
  annotations : Annotations
}.
Arguments Batch : clear implicits.

(** The numerical side of the pipeline, which lives outside [train.py]:
    the weights, what a forward pass computes from them, and how one
    optimiser update changes them. *)
Class Network := {
  (** everything an update can change: the parameters of the sub-models
      and the state of the optimiser *)
  Weights : Type;
  StateDict : Type;
  Annotations : Type;
  DataConst : Type;
  state_dict : Weights → Component → StateDict;
  (** The loss terms that a forward pass over a batch computes, in
      training ([True]) or evaluation mode. *)
  forward_pass : ExpConst → bool → Weights → Batch Annotations → LossTerms;
  (** The weights after [opt.zero_grad(); loss.backward(); opt.step()]. *)
  optimizer_update : Optimizer → ExpConst → Weights →
                     Batch Annotations → Weights;
  (** The network that [main] builds (and, on a resumed run, loads). *)
  create_network : ExpConst → ModelConst → Weights;
  (** What iterating a [DataLoader] over a dataset yields, pass after
      pass (the loaders shuffle). *)
  load_batches : Dataset → DataConst → nat → list (Batch Annotations)
}.

Section Definitions.
Context `{Network}.

Abbreviation Batch := (Batch Annotations).

(** [dataloaders]: the batches of the [k]-th pass over each loader. *)
Record DataLoaders := {
  train : nat → list Batch;
  val : nat → list Batch
}.

(** The [model] object: its constants and its sub-models. *)
Record TrainedModel := {
  const : ModelConst;
  weights : Weights
}.

(** The dictionary handed to [torch.save]. *)
Record Checkpoint := {
  ckpt_state_dict : StateDict;
  ckpt_step : Z;
  ckpt_val_loss : option Qc;
  ckpt_prev_best_val_loss : Qc
}.

Inductive event :=
| SetTrainMode
| SetEvalMode
| ForwardPass (training grad : bool) (data : Batch)
| ZeroGrad
| Backward (loss : Qc)
| OptimizerStep
| AddScalar (name : string) (value : Qc) (step : Z)
| PrintLog (epoch it : nat) (step : Z) (log_items : list (string * Qc))
| PrintVal (eval_results : EvalResults)
| Print (s : string)
| TorchSave (obj : Checkpoint) (path : string).

(** Computations: they read the ambient gradient mode, emit events and
    either return or raise. *)
Definition M (A : Type) : Type := bool → list event * (exn + A).

#[export] Instance M_ret : MRet M := λ A a _, ([], inr a).
#[export] Instance M_bind : MBind M := λ A B k m g,
  let '(tr, r) := m g in
  match r with
  | inr a => let '(tr', r') := k a g in (tr ++ tr', r')
  | inl e => (tr, inl e)
  end.

Definition emit (e : event) : M unit := λ _, ([e], inr tt).
Definition raise {A} (e : exn) : M A := λ _, ([], inl e).
Definition is_grad_enabled : M bool := λ g, ([], inr g).
(** [with torch.no_grad(): m] *)
Definition no_grad {A} (m : M A) : M A := λ _, m false.

Fixpoint for_each {A} (l : list A) (body : A → M unit) : M unit :=
  match l with
  | [] => mret tt
  | x :: l => body x;; for_each l body
  end.

Definition when (b : bool) (m : M unit) : M unit :=
  if b then m else mret tt.

(** [a % b] on Python integers. *)
Definition py_mod (a b : Z) : M Z :=
  if decide (b = 0%Z) then raise ZeroDivisionError
  else mret (a `mod` b)%Z.

(** [a / b] for a float (or the integer 0) [a] and an integer [b]. *)
Definition py_div (a : Qc) (b : Z) : M Qc :=
  if decide (b = 0%Z) then raise ZeroDivisionError
  else mret (a / Qc_of_Z b).

Fixpoint ends_with_slash (s : string) : bool :=
  match s with
  | EmptyString => false
  | String c EmptyString => bool_decide (String c EmptyString = "/")
  | String _ s => ends_with_slash s
  end.

(** [os.path.join(a,b)] (POSIX). *)
Definition os_path_join (a b : string) : string :=
  if String.prefix "/" b then b
  else if bool_decide (a = "") || ends_with_slash a then a +:+ b
  else a +:+ "/" +:+ b.

Definition weighted_loss (exp_const : ExpConst)
    (self_sup lang_sup neg_noun : Qc) : Qc :=
  self_sup_loss_wt exp_const * self_sup +
  lang_sup_loss_wt exp_const * lang_sup +
  neg_noun_loss_wt exp_const * neg_noun.

(** *** [eval_model] *)

Record EvalAcc := {
  avg_self_sup_loss : Qc;
  avg_lang_sup_loss : Qc;
  avg_neg_noun_loss : Qc;
  num_samples : Z
}.

Definition should_break (exp_const : ExpConst) (acc : EvalAcc) : bool :=
  match num_val_samples exp_const with
  | Some n => bool_decide (n ≤ num_samples acc)%Z
  | None => false
  end.

Fixpoint eval_loop (w : Weights) (exp_const : ExpConst)
    (dataloader : list Batch) (acc : EvalAcc) : M EvalAcc :=
  match dataloader with
  | [] => mret acc
  | data :: dataloader =>
      if should_break exp_const acc then mret acc
      else
        g ← is_grad_enabled;
        emit (ForwardPass false g data);;
        let l := forward_pass exp_const false w data in
        let batch_size := Z.of_nat (length (features data)) in
        eval_loop w exp_const dataloader
          {| num_samples := num_samples acc + batch_size;
             avg_self_sup_loss :=
               avg_self_sup_loss acc + self_sup_loss l * Qc_of_Z batch_size;
             avg_lang_sup_loss :=
               avg_lang_sup_loss acc + lang_sup_loss l * Qc_of_Z batch_size;
             avg_neg_noun_loss :=
               avg_neg_noun_loss acc + neg_noun_loss l * Qc_of_Z batch_size |}
  end.

Definition eval_model (model : TrainedModel) (dataloader : list Batch)
    (exp_const : ExpConst) (step : Z) : M EvalResults :=
  emit SetEvalMode;;
  acc ← eval_loop (weights model) exp_const dataloader
          {| avg_self_sup_loss := 0; avg_lang_sup_loss := 0;
             avg_neg_noun_loss := 0; num_samples := 0 |};
  avg_self_sup_loss ← py_div (avg_self_sup_loss acc) (num_samples acc);
  avg_lang_sup_loss ← py_div (avg_lang_sup_loss acc) (num_samples acc);
  avg_neg_noun_loss ← py_div (avg_neg_noun_loss acc) (num_samples acc);
  let total_loss :=
    weighted_loss exp_const
      avg_self_sup_loss avg_lang_sup_loss avg_neg_noun_loss in
  mret {| res_self_sup_loss := avg_self_sup_loss;
          res_lang_sup_loss := avg_lang_sup_loss;
          res_neg_noun_loss := avg_neg_noun_loss;
          total_loss := total_loss |}.

(** *** [train_model] *)

(** The variables of the training loop that survive an iteration. *)
Record LoopState := {
  cur_weights : Weights;
  step : Z;
  best_val_loss : Qc;
  (** how many passes over [dataloaders['val']] have been made *)
  val_passes : nat
}.

Definition make_optimizer (exp_const : ExpConst) : M Optimizer :=
  if bool_decide (optimizer exp_const = "SGD") then
    mret (SGD (lr exp_const) (momentum exp_const))
  else if bool_decide (optimizer exp_const = "Adam") then
    mret (Adam (lr exp_const))
  else raise (AssertionError "optimizer not implemented").

Definition initial_step (model_num : Z) : Z :=
  if decide (model_num = (-1)%Z) then 0%Z else model_num.

Definition periodic_save_items (exp_const : ExpConst)
    : list (string * Component) :=
  [("object_encoder", object_encoder);
   ("self_sup_criterion", self_sup_criterion);
   ("lang_sup_criterion", lang_sup_criterion)]
  ++ (if random_lang exp_const then [("cap_encoder", cap_encoder)] else []).

Definition best_save_items (exp_const : ExpConst)
    : list (string * Component) :=
  [("best_object_encoder", object_encoder);
   ("best_self_sup_criterion", self_sup_criterion);
   ("best_lang_sup_criterion", lang_sup_criterion)]
  ++ (if random_lang exp_const then [("best_cap_encoder", cap_encoder)]
      else []).

Definition add_scalars (log_items : list (string * Qc)) (step : Z)
    : M unit :=
  for_each log_items (λ item, emit (AddScalar item.1 item.2 step)).

(** One iteration of the inner loop, block by block.  Lines 77-161: set
    the mode, run the forward pass, combine the loss terms and update the
    weights. *)
Definition backward_pass (exp_const : ExpConst) (opt : Optimizer)
    (data : Batch) (st : LoopState) : M (LossTerms * Qc * Weights) :=
  (* Set mode *)
  emit SetTrainMode;;
  (* Forward pass *)
  g ← is_grad_enabled;
  emit (ForwardPass true g data);;
  let l := forward_pass exp_const true (cur_weights st) data in
  let loss :=
    weighted_loss exp_const
      (self_sup_loss l) (lang_sup_loss l) (neg_noun_loss l) in
  (* Backward pass *)
  emit ZeroGrad;;
  emit (Backward loss);;
  emit OptimizerStep;;
  mret (l, loss, optimizer_update opt exp_const (cur_weights st) data).

(** Lines 163-180: [if step%exp_const.log_step==0] and
    [if step%(50*exp_const.log_step)==0]. *)
Definition log_block (exp_const : ExpConst) (epoch it : nat) (step : Z)
    (l : LossTerms) (loss : Qc) : M unit :=
  r ← py_mod step (log_step exp_const);
  when (bool_decide (r = 0%Z))
    (let log_items :=
       [("Self_Sup_Loss/Train", self_sup_loss l);
        ("Lang_Sup_Loss/Train", lang_sup_loss l);
        ("Neg_Noun_Loss/Train", neg_noun_loss l);
        ("Loss/Train", loss);
        ("Lr", lr exp_const)] in
     add_scalars log_items step;;
     emit (PrintLog epoch it step log_items));;
  r ← py_mod step (50 * log_step exp_const);
  when (bool_decide (r = 0%Z))
    (emit (Print ("Experiment: " +:+ exp_name exp_const))).

(** Lines 182-200: [if step%exp_const.model_save_step==0]. *)
Definition save_block (exp_const : ExpConst) (w : Weights) (step : Z)
    (best_val_loss : Qc) : M unit :=
  r ← py_mod step (model_save_step exp_const);
  when (bool_decide (r = 0%Z))
    (for_each (periodic_save_items exp_const) (λ item,
       let model_path :=
         os_path_join (model_dir exp_const)
           (item.1 +:+ "_" +:+ pretty step) in
       emit (TorchSave
               {| ckpt_state_dict := state_dict w item.2;
                  ckpt_step := step;
                  ckpt_val_loss := None;
                  ckpt_prev_best_val_loss := best_val_loss |}
               model_path))).

(** Lines 202-243: [if step%exp_const.val_step==0].  Returns the
    best validation loss to carry on with, and the number of passes made
    over the validation loader. *)
Definition validation_block (model_const : ModelConst)
    (dataloaders : DataLoaders) (exp_const : ExpConst) (w : Weights)
    (step : Z) (best_val_loss : Qc) (val_passes : nat) : M (Qc * nat) :=
  r ← py_mod step (val_step exp_const);
  if bool_decide (r = 0%Z) then
    eval_results ←
      no_grad (eval_model {| const := model_const; weights := w |}
                 (val dataloaders val_passes) exp_const step);
    emit (PrintVal eval_results);;
    add_scalars
      [("Self_Sup_Loss/Val", res_self_sup_loss eval_results);
       ("Lang_Sup_Loss/Val", res_lang_sup_loss eval_results);
       ("Neg_Noun_Loss/Val", res_neg_noun_loss eval_results);
       ("Loss/Val", total_loss eval_results)] step;;
    let val_loss := total_loss eval_results in
    if bool_decide (val_loss < best_val_loss) then
      emit (Print ("Saving best model at " +:+ pretty step +:+ " ..."));;
      for_each (best_save_items exp_const) (λ item,
        let model_path := os_path_join (model_dir exp_const) item.1 in
        emit (TorchSave
                {| ckpt_state_dict := state_dict w item.2;
                   ckpt_step := step;
                   ckpt_val_loss := Some val_loss;
                   ckpt_prev_best_val_loss := best_val_loss |}
                model_path));;
      mret (val_loss, S val_passes)
    else mret (best_val_loss, S val_passes)
  else mret (best_val_loss, val_passes).

Definition train_iteration (model_const : ModelConst)
    (dataloaders : DataLoaders) (exp_const : ExpConst) (opt : Optimizer)
    (epoch it : nat) (data : Batch) (st : LoopState) : M LoopState :=
  '(l, loss, w) ← backward_pass exp_const opt data st;
  log_block exp_const epoch it (step st) l loss;;
  save_block exp_const w (step st) (best_val_loss st);;
  best ← validation_block model_const dataloaders exp_const w
           (step st) (best_val_loss st) (val_passes st);
  (* step += 1 *)
  mret {| cur_weights := w;
          step := step st + 1;
          best_val_loss := best.1;
          val_passes := best.2 |}.

(** *** The events of one iteration, block by block

    What each block of [train_iteration] emits when it does not raise. *)

Definition backward_events (exp_const : ExpConst) (data : Batch)
    (st : LoopState) (g : bool) : list event :=
  let l := forward_pass exp_const true (cur_weights st) data in
  [SetTrainMode; ForwardPass true g data; ZeroGrad;
   Backward (weighted_loss exp_const
               (self_sup_loss l) (lang_sup_loss l) (neg_noun_loss l));
   OptimizerStep].

Definition log_events (exp_const : ExpConst) (epoch it : nat) (step : Z)
    (l : LossTerms) (loss : Qc) : list event :=
  (if bool_decide (step `mod` log_step exp_const = 0)%Z then
     let log_items :=
       [("Self_Sup_Loss/Train", self_sup_loss l);
        ("Lang_Sup_Loss/Train", lang_sup_loss l);
        ("Neg_Noun_Loss/Train", neg_noun_loss l);
        ("Loss/Train", loss);
        ("Lr", lr exp_const)] in
     ((λ item, AddScalar item.1 item.2 step) <$> log_items)
     ++ [PrintLog epoch it step log_items]
   else [])
  ++ (if bool_decide (step `mod` (50 * log_step exp_const) = 0)%Z then
        [Print ("Experiment: " +:+ exp_name exp_const)]
      else []).

Definition periodic_save_events (exp_const : ExpConst) (w : Weights)
    (step : Z) (best_val_loss : Qc) : list event :=
  (λ item : string * Component,
     TorchSave
       {| ckpt_state_dict := state_dict w item.2;
          ckpt_step := step;
          ckpt_val_loss := None;
          ckpt_prev_best_val_loss := best_val_loss |}
       (os_path_join (model_dir exp_const) (item.1 +:+ "_" +:+ pretty step)))
  <$> periodic_save_items exp_const.

Definition validation_log_events (eval_results : EvalResults) (step : Z)
    : list event :=
  PrintVal eval_results
  :: ((λ item : string * Qc, AddScalar item.1 item.2 step)
      <$> [("Self_Sup_Loss/Val", res_self_sup_loss eval_results);
           ("Lang_Sup_Loss/Val", res_lang_sup_loss eval_results);
           ("Neg_Noun_Loss/Val", res_neg_noun_loss eval_results);
           ("Loss/Val", total_loss eval_results)]).

Definition best_save_events (exp_const : ExpConst) (w : Weights)
    (step : Z) (val_loss best_val_loss : Qc) : list event :=
  (λ item : string * Component,
     TorchSave
       {| ckpt_state_dict := state_dict w item.2;
          ckpt_step := step;
          ckpt_val_loss := Some val_loss;
          ckpt_prev_best_val_loss := best_val_loss |}
       (os_path_join (model_dir exp_const) item.1))
  <$> best_save_items exp_const.

(** [for it,data in enumerate(dataloaders['train'])] *)
Fixpoint train_epoch (model_const : ModelConst)
    (dataloaders : DataLoaders) (exp_const : ExpConst) (opt : Optimizer)
    (epoch it : nat) (batches : list Batch) (st : LoopState)
    : M LoopState :=
  match batches with
  | [] => mret st
  | data :: batches =>
      st ← train_iteration model_const dataloaders exp_const opt
             epoch it data st;
      train_epoch model_const dataloaders exp_const opt
        epoch (S it) batches st
  end.

(** [for epoch in range(exp_const.num_epochs)], with [n] epochs left. *)
Fixpoint train_epochs (model_const : ModelConst)
    (dataloaders : DataLoaders) (exp_const : ExpConst) (opt : Optimizer)
    (n epoch : nat) (st : LoopState) : M LoopState :=
  match n with
  | O => mret st
  | S n =>
      st ← train_epoch model_const dataloaders exp_const opt
             epoch 0 (train dataloaders epoch) st;
      train_epochs model_const dataloaders exp_const opt n (S epoch) st
  end.

Definition initial_state (model : TrainedModel) : LoopState :=
  {| cur_weights := weights model;
     step := initial_step (model_num (const model));
     best_val_loss := Qc_of_Z 10000;
     val_passes := 0 |}.

Definition train_model (model : TrainedModel) (dataloaders : DataLoaders)
    (exp_const : ExpConst) : M unit :=
  opt ← make_optimizer exp_const;
  train_epochs (const model) dataloaders exp_const opt
    (Z.to_nat (num_epochs exp_const)) 0 (initial_state model);;
  mret tt.

(** *** [main] *)

(** [data_const['train']] and [data_const['val']]. *)
Record DataConsts := {
  train_const : DataConst;
  val_const : DataConst
}.

Definition select_dataset (exp_const : ExpConst) : M Dataset :=
  if bool_decide (dataset exp_const = "coco") then mret CocoDataset
  else if bool_decide (dataset exp_const = "flickr") then mret FlickrDataset
  else raise (NotImplementedError
                (dataset exp_const +:+ " not implemented")).

(** Seeding, directory creation, the tensorboard writer, the dump of the
    constants and the move of the sub-models to the GPU leave no event;
    building the network and the datasets is [create_network] and
    [load_batches]. *)
Definition main (exp_const : ExpConst) (data_const : DataConsts)
    (model_const : ModelConst) : M unit :=
  emit (Print "Creating network ...");;
  let model := {| const := model_const;
                  weights := create_network exp_const model_const |} in
  emit (Print "Creating dataloader ...");;
  Dataset ← select_dataset exp_const;
  let dataloaders :=
    {| train := load_batches Dataset (train_const data_const);
       val := load_batches Dataset (val_const data_const) |} in
  train_model model dataloaders exp_const.

(** *** Reading a trace *)

(** Running a script: gradients are enabled when the interpreter
    starts. *)
Definition run {A} (m : M A) : list event * (exn + A) := m true.

(** Every dictionary handed to [torch.save], with its path, in order. *)
Definition checkpoints (tr : list event) : list (Checkpoint * string) :=
  omap (λ e, match e with TorchSave obj path => Some (obj, path) | _ => None end)
    tr.

(** The 'best' checkpoints are the files of the model directory named
    after the keys of the second [save_items] dictionary. *)
Definition is_best_path (exp_const : ExpConst) (path : string) : bool :=
  bool_decide
    (path ∈ (λ item : string * Component,
               os_path_join (model_dir exp_const) item.1)
            <$> best_save_items exp_const).

Definition best_checkpoints (exp_const : ExpConst) (tr : list event)
    : list Checkpoint :=
  omap (λ e, match e with
             | TorchSave obj path =>
                 if is_best_path exp_const path then Some obj else None
             | _ => None
             end) tr.

Definition periodic_checkpoints (exp_const : ExpConst) (tr : list event)
    : list Checkpoint :=
  omap (λ e, match e with
             | TorchSave obj path =>
                 if is_best_path exp_const path then None else Some obj
             | _ => None
             end) tr.

(** The two shapes a saved dictionary can have in an iteration that starts
    in state [st]. *)
Definition periodic_shape (exp_const : ExpConst) (w : Weights)
    (st : LoopState) (cp : Checkpoint * string) : Prop :=
  ∃ item : string * Component,
    item ∈ periodic_save_items exp_const ∧
    cp.2 = os_path_join (model_dir exp_const)
             (item.1 +:+ "_" +:+ pretty (step st)) ∧
    cp.1 = {| ckpt_state_dict := state_dict w item.2;
              ckpt_step := step st;
              ckpt_val_loss := None;
              ckpt_prev_best_val_loss := best_val_loss st |}.

Definition best_shape (exp_const : ExpConst) (w : Weights)
    (st : LoopState) (val_loss : Qc) (cp : Checkpoint * string) : Prop :=
  ∃ item : string * Component,
    item ∈ best_save_items exp_const ∧
    cp.2 = os_path_join (model_dir exp_const) item.1 ∧
    cp.1 = {| ckpt_state_dict := state_dict w item.2;
              ckpt_step := step st;
              ckpt_val_loss := Some val_loss;
              ckpt_prev_best_val_loss := best_val_loss st |}.

(** The losses on which [backward] was called. *)
Definition backward_losses (tr : list event) : list Qc :=
  omap (λ e, match e with Backward loss => Some loss | _ => None end) tr.

(** Every training iteration begins by putting the sub-models in training
    mode. *)
Definition iterations_started (tr : list event) : nat :=
  length (omap (λ e, match e with SetTrainMode => Some () | _ => None end) tr).

(** The batches on which an evaluation-mode forward pass was run. *)
Definition eval_batches (tr : list event) : list Batch :=
  omap (λ e, match e with
             | ForwardPass false _ data => Some data
             | _ => None
             end) tr.

(** The batches on which an evaluation-mode forward pass was run while
    gradients were enabled. *)
Definition eval_batches_with_grad (tr : list event) : list Batch :=
  omap (λ e, match e with
             | ForwardPass false true data => Some data
             | _ => None
             end) tr.

(** The scalars sent to tensorboard, and the number of validation passes. *)
Definition scalars (tr : list event) : list (string * Qc * Z) :=
  omap (λ e, match e with
             | AddScalar name value step => Some (name, value, step)
             | _ => None
             end) tr.

Definition validation_passes (tr : list event) : nat :=
  length (omap (λ e, match e with SetEvalMode => Some () | _ => None end) tr).

(** A sequence of losses that starts no higher than [bound] and never
    goes up. *)
Fixpoint descends (bound : Qc) (vals : list Qc) : Prop :=
  match vals with
  | [] => True
  | v :: vals => v ≤ bound ∧ descends v vals
  end.

(** *** Loss averaging, for reference *)

(** The batches that the loop of [eval_model] processes when it starts with
    [n] samples counted. *)
Fixpoint consumed (exp_const : ExpConst) (n : Z) (dataloader : list Batch)
    : list Batch :=
  match dataloader with
  | [] => []
  | data :: dataloader =>
      match num_val_samples exp_const with
      | Some k =>
          if bool_decide (k ≤ n)%Z then []
          else data :: consumed exp_const
                         (n + Z.of_nat (length (features data))) dataloader
      | None =>
          data :: consumed exp_const
                    (n + Z.of_nat (length (features data))) dataloader
      end
  end.

Definition batch_size (data : Batch) : Z := Z.of_nat (length (features data)).

Definition samples (batches : list Batch) : Z :=
  foldr (λ data n, batch_size data + n)%Z 0%Z batches.

(** The sum, over [batches], of one loss term of the evaluation-mode
    forward pass times the size of the batch. *)
Definition weighted_sum (exp_const : ExpConst) (w : Weights)
    (term : LossTerms → Qc) (batches : list Batch) : Qc :=
  foldr (λ data acc,
           term (forward_pass exp_const false w data)
           * Qc_of_Z (batch_size data) + acc) 0 batches.

End Definitions.

(** *** A small network to evaluate the definitions on

    Its weights count the updates made; the self-supervised loss falls by
    one with every update. *)

Definition toy_batch : Batch unit :=
  {| features := [[[1]]; [[0]]];
     object_mask := [[false]; [false]];
     pad_mask := [[false]; [true]];
     annotations := () |}.

Definition toy_network : Network :=
  {| Weights := Z;
     StateDict := Z * Component;
     Annotations := unit;
     DataConst := unit;
     state_dict := λ w c, (w, c);
     forward_pass := λ _ _ w _,
       {| self_sup_loss := Qc_of_Z (10 - w);
          lang_sup_loss := 1;
          neg_noun_loss := 0 |};
     optimizer_update := λ _ _ w _, (w + 1)%Z;
     create_network := λ _ _, 0%Z;
     load_batches := λ _ _ _,
       [ toy_batch;
         {| features := [[[0]]];
            object_mask := [[true]];
            pad_mask := [[false]];
            annotations := () |} ] |}.

Definition toy_exp_const : ExpConst :=
  {| exp_name := "toy";
     model_dir := "models";
     dataset := "coco";
     optimizer := "SGD";
     lr := 1;
     momentum := 0;
     num_epochs := 1;
     log_step := 1;
     model_save_step := 2;
     val_step := 1;
     num_val_samples := Some 2%Z;
     self_sup_loss_wt := 1;
     lang_sup_loss_wt := 1;
     neg_noun_loss_wt := 1;
     random_lang := false;
     contextualize := true |}.

(** The same configuration with an optimiser, respectively a dataset, that
    [train.py] does not know. *)
Definition toy_exp_const_rmsprop : ExpConst :=
  {| exp_name := "toy";
     model_dir := "models";
     dataset := "flickr";
     optimizer := "RMSprop";
     lr := 1;
     momentum := 0;
     num_epochs := 1;
     log_step := 1;
     model_save_step := 2;
     val_step := 1;
     num_val_samples := Some 2%Z;
     self_sup_loss_wt := 1;
     lang_sup_loss_wt := 1;
     neg_noun_loss_wt := 1;
     random_lang := false;
     contextualize := true |}.

Definition toy_exp_const_vg : ExpConst :=
  {| exp_name := "toy";
     model_dir := "models";
     dataset := "vg";
     optimizer := "RMSprop";
     lr := 1;
     momentum := 0;
     num_epochs := 1;
     log_step := 1;
     model_save_step := 2;
     val_step := 1;
     num_val_samples := Some 2%Z;
     self_sup_loss_wt := 1;
     lang_sup_loss_wt := 1;
     neg_noun_loss_wt := 1;
     random_lang := false;
     contextualize := true |}.

Definition toy_model : @TrainedModel toy_network :=
  {| const := {| model_num := -1 |};
     weights := (0%Z : @Weights toy_network) |}.

Definition toy_dataloaders : @DataLoaders toy_network :=
  {| train := @load_batches toy_network CocoDataset
                (() : @DataConst toy_network);
     val := @load_batches toy_network CocoDataset
              (() : @DataConst toy_network) |}.

Definition toy_data_const : @DataConsts toy_network :=
  {| train_const := (() : @DataConst toy_network);
     val_const := (() : @DataConst toy_network) |}.

End Train.

(** * Further definitions

    Inputs to evaluate the definitions on, and readings of a trace, used by
    the further properties below. *)

(** A batch of two images with one object each, and a mask made for a
    batch of three. *)
Definition example_features_two : Tensor3 :=
  [[[Q2Qc 5; Q2Qc 6]]; [[Q2Qc 7; Q2Qc 8]]].
Definition example_mask_three : Mask := [[true]; [false]; [true]].
(** The features of [ObjectEncoder.example_features] with other values at
    the two masked or padded positions. *)
Definition example_features_alt : Tensor3 :=
  [[[Q2Qc 1; Q2Qc 2]; [Q2Qc 3; Q2Qc 4]; [Q2Qc 9; Q2Qc 10]]].

Module TrainMore.
Import Train.

Section Definitions.
Context `{Network}.

(** The batches a complete run of the loops iterates over: those of the
    loader passes [epoch], [epoch+1], ..., [epoch+n-1], in order. *)
Fixpoint all_batches (dataloaders : DataLoaders) (n epoch : nat)
    : list (Batch Annotations) :=
  match n with
  | O => []
  | S n => train dataloaders epoch ++ all_batches dataloaders n (S epoch)
  end.

(** The steps of [n] successive iterations that start at step [s]. *)
Fixpoint steps_from (s : Z) (n : nat) : list Z :=
  match n with
  | O => []
  | S n => s :: steps_from (s + 1) n
  end.

(** The paths of the periodic checkpoints, in the order written. *)
Definition periodic_paths (exp_const : ExpConst) (tr : list event)
    : list string :=
  omap (λ e, match e with
             | TorchSave obj path =>
                 if is_best_path exp_const path then None else Some path
             | _ => None
             end) tr.

(** A chain of improvements [(step, val_loss, prev_best_val_loss)]: each
    one records as previous best the loss of the one before it ([best] for
    the first), improves on it strictly, and is made at a later step (the
    first not before [s]). *)
Fixpoint linked (s : Z) (best : Qc) (imps : list (Z * Qc * Qc)) : Prop :=
  match imps with
  | [] => True
  | (t, v, prev) :: imps =>
      (s ≤ t)%Z ∧ prev = best ∧ v < best ∧ linked (t + 1) v imps
  end.



(** The names and steps of the scalars logged: the names of the training
    and of the validation scalars, what the iteration at step [s] logs
    when it returns, and the name and step of a logged scalar. *)
Definition train_scalar_names : list string :=
  ["Self_Sup_Loss/Train"; "Lang_Sup_Loss/Train"; "Neg_Noun_Loss/Train";
   "Loss/Train"; "Lr"].
Definition val_scalar_names : list string :=
  ["Self_Sup_Loss/Val"; "Lang_Sup_Loss/Val"; "Neg_Noun_Loss/Val";
   "Loss/Val"].
Definition scalar_tags (exp_const : ExpConst) (s : Z) : list (string * Z) :=
  (if bool_decide (s `mod` log_step exp_const = 0)%Z
   then (λ name, (name, s)) <$> train_scalar_names else [])
  ++ (if bool_decide (s `mod` val_step exp_const = 0)%Z
      then (λ name, (name, s)) <$> val_scalar_names else []).
Definition scalar_tag (x : string * Qc * Z) : string * Z := (x.1.1, x.2).

End Definitions.

(** A configuration whose logging interval is zero, and loaders without
    batches. *)
Definition toy_exp_const_log0 : ExpConst :=
  {| exp_name := "toy";
     model_dir := "models";
     dataset := "coco";
     optimizer := "Adam";
     lr := 1;
     momentum := 0;
     num_epochs := 2;
     log_step := 0;
     model_save_step := 2;
     val_step := 1;
     num_val_samples := None;
     self_sup_loss_wt := 1;
     lang_sup_loss_wt := 1;
     neg_noun_loss_wt := 1;
     random_lang := true;
     contextualize := false |}.

Definition toy_empty_dataloaders : @DataLoaders toy_network :=
  {| train := λ _, []; val := λ _, [] |}.

End TrainMore.

(** * Properties *)

(** ** Broadcasting *)

Section Broadcasting.
Context {A B C : Type}.
Implicit Types (f : A → B → option C) (g : A → B → C).

Lemma mapM_pointwise {X Y} (h : X → option Y) (k : X → Y) (l : list X) :
  Forall (λ x, h x = Some (k x)) l → mapM h l = Some (k <$> l).
Proof.
  intros Hl. apply mapM_Some_2.
  induction Hl; constructor; auto.
Qed.

Lemma broadcast_same_length f x y :
  length x = length y →
  broadcast f x y = mapM (λ ab, f ab.1 ab.2) (zip x y).
Proof. intros Hlen. unfold broadcast. by rewrite decide_True. Qed.

Lemma broadcast_singleton_r f x b :
  broadcast f x [b] = mapM (λ a, f a b) x.
Proof.
  unfold broadcast. case_decide as Hlen.
  - destruct x as [|a [|a' x]]; simplify_eq/=. done.
  - destruct x as [|a [|a' x]]; simplify_eq/=; done.
Qed.

Lemma broadcast_singleton_l f a y :
  broadcast f [a] y = mapM (f a) y.
Proof.
  unfold broadcast. case_decide as Hlen; [|done].
  destruct y as [|b [|b' y]]; simplify_eq/=. done.
Qed.

Lemma broadcast_zip_with f g x y :
  Forall2 (λ a b, f a b = Some (g a b)) x y →
  broadcast f x y = Some (zip_with g x y).
Proof.
  intros Hxy. rewrite broadcast_same_length by eauto using Forall2_length.
  apply mapM_Some_2.
  induction Hxy; simpl; constructor; auto.
Qed.

End Broadcasting.

(** ** Pad and mask substitution *)

Section Substitution.
Import ObjectEncoder.

Lemma blend_vector (b : bool) (feat v : Tensor1) :
  length feat = length v →
  zip_with Qcplus (Qcmult (bool_to_float b) <$> feat)
                  (Qcmult (1 - bool_to_float b) <$> v) = choose feat b v.
Proof.
  revert v. induction feat as [|a feat IH]; intros [|c v] Hlen;
    simplify_eq/=.
  - by destruct b.
  - rewrite IH by done. destruct b; simpl; f_equal; ring.
Qed.

Lemma ew1_scalar (f : Qc → Qc → Qc) (q : Qc) (v : Tensor1) :
  ew1 f [q] v = Some (f q <$> v).
Proof.
  unfold ew1. rewrite broadcast_singleton_l.
  apply mapM_pointwise, Forall_forall. done.
Qed.

Lemma ew1_same (f : Qc → Qc → Qc) (u v : Tensor1) :
  length u = length v → ew1 f u v = Some (zip_with f u v).
Proof.
  intros Hlen. apply broadcast_zip_with.
  apply Forall2_same_length_lookup_2; [done|]. done.
Qed.

Lemma mapM_fmap_pointwise {X Y Z} (h : Y → option Z) (F : X → Y) (k : X → Z)
    (l : list X) :
  Forall (λ x, h (F x) = Some (k x)) l → mapM h (F <$> l) = Some (k <$> l).
Proof.
  intros Hl. apply mapM_Some_2, Forall2_fmap_l, Forall2_fmap_r.
  by apply Forall_Forall2_diag.
Qed.

Lemma broadcast_fmap_zip_with {X Y Z W} (f : Y → Z → option W) (F : X → Y)
    (g : X → Z → W) (x : list X) (y : list Z) :
  Forall2 (λ a b, f (F a) b = Some (g a b)) x y →
  broadcast f (F <$> x) y = Some (zip_with g x y).
Proof.
  intros Hxy. rewrite broadcast_same_length.
  - apply mapM_Some_2. induction Hxy; simpl; constructor; auto.
  - rewrite length_fmap. eauto using Forall2_length.
Qed.

Lemma tmul_mask_feat (m : Mask) (feat : Tensor1) :
  tmul (unsqueeze2_float m) (align3 feat)
  = Some (map (map (λ b, Qcmult (bool_to_float b) <$> feat)) m).
Proof.
  unfold tmul, ew3, align3, unsqueeze2_float.
  rewrite broadcast_singleton_r.
  apply mapM_fmap_pointwise, Forall_forall. intros row _.
  unfold ew2. rewrite broadcast_singleton_r.
  apply mapM_fmap_pointwise, Forall_forall. intros b _.
  apply ew1_scalar.
Qed.

Lemma broadcast_fmap_zip_with_both {X Y Z W V} (f : Z → W → option V)
    (F : X → Z) (h : X → Y → W) (k : X → Y → V) (m : list X) (x : list Y) :
  Forall2 (λ a b, f (F a) (h a b) = Some (k a b)) m x →
  broadcast f (F <$> m) (zip_with h m x) = Some (zip_with k m x).
Proof.
  intros Hmx. rewrite broadcast_same_length.
  - apply mapM_Some_2. induction Hmx; simpl; constructor; auto.
  - apply Forall2_length in Hmx.
    rewrite length_fmap, length_zip_with. lia.
Qed.

Lemma shapes_Forall2 {X} (B T D : nat) (m : list (list X)) (x : Tensor3) :
  has_shape2 B T m → has_shape3 B T D x →
  Forall2 (λ mrow xrow,
             Forall2 (λ (_ : X) (v : Tensor1), length v = D) mrow xrow) m x.
Proof.
  intros [Hm1 Hm2] [Hx1 Hx2].
  apply Forall2_same_length_lookup_2; [lia|].
  intros i mrow xrow Hmi Hxi.
  eapply Forall_lookup_1 in Hm2; [|done].
  eapply Forall_lookup_1 in Hx2 as [Hlen Hv]; [|done].
  simpl in *.
  apply Forall2_same_length_lookup_2; [lia|].
  intros j ? v _ Hv'. by eapply Forall_lookup_1 in Hv.
Qed.

Lemma tmul_rsub_mask (B T D : nat) (m : Mask) (x : Tensor3) :
  has_shape2 B T m → has_shape3 B T D x →
  tmul (rsub 1 (unsqueeze2_float m)) x
  = Some (zip_with (zip_with
            (λ b v, Qcmult (1 - bool_to_float b) <$> v)) m x).
Proof.
  intros Hm Hx. unfold tmul, ew3, rsub, unsqueeze2_float.
  rewrite <-list_fmap_compose.
  apply broadcast_fmap_zip_with.
  eapply Forall2_impl; [by eapply shapes_Forall2|].
  intros mrow xrow Hrow. simpl. unfold ew2.
  rewrite <-list_fmap_compose.
  apply broadcast_fmap_zip_with.
  eapply Forall2_impl; [done|].
  intros b v _. simpl. apply ew1_scalar.
Qed.

Lemma substitute_closed_form (B T D : nat) (m : Mask) (feat : Tensor1)
    (x : Tensor3) :
  has_shape2 B T m → has_shape3 B T D x → length feat = D →
  substitute (unsqueeze2_float m) feat x
  = Some (zip_with (zip_with (choose feat)) m x).
Proof.
  intros Hm Hx Hfeat. unfold substitute.
  rewrite tmul_mask_feat. simpl.
  erewrite tmul_rsub_mask by done. simpl.
  unfold tadd, ew3.
  apply broadcast_fmap_zip_with_both.
  eapply Forall2_impl; [by eapply shapes_Forall2|].
  intros mrow xrow Hrow. simpl. unfold ew2.
  apply broadcast_fmap_zip_with_both.
  eapply Forall2_impl; [done|].
  intros b v Hv. simpl in *.
  rewrite ew1_same by (rewrite !length_fmap; lia).
  by rewrite blend_vector by lia.
Qed.

Lemma substitute_shape (B T D : nat) (m : Mask) (feat : Tensor1)
    (x : Tensor3) :
  has_shape2 B T m → has_shape3 B T D x → length feat = D →
  has_shape3 B T D (zip_with (zip_with (choose feat)) m x).
Proof.
  intros Hm Hx Hfeat.
  pose proof (shapes_Forall2 B T D m x Hm Hx) as Hmx.
  destruct Hm as [Hm1 Hm2], Hx as [Hx1 Hx2]. split.
  - rewrite length_zip_with. lia.
  - apply Forall_lookup_2. intros i row Hi.
    apply lookup_zip_with_Some in Hi as (mrow & xrow & -> & Hmi & Hxi).
    eapply Forall_lookup_1 in Hm2; [|done].
    eapply Forall_lookup_1 in Hx2 as [Hlen Hv]; [|done]. simpl in *.
    split; [rewrite length_zip_with; lia|].
    apply Forall_lookup_2. intros j v Hj.
    apply lookup_zip_with_Some in Hj as (b & v' & -> & _ & Hv').
    eapply Forall_lookup_1 in Hv; [|done].
    unfold choose. by destruct b.
Qed.

Lemma at2_zip_with {X Y Z} (g : X → Y → Z) (m : list (list X))
    (x : list (list Y)) (b t : nat) :
  at2 (zip_with (zip_with g) m x) b t
  = (a ← at2 m b t; v ← at2 x b t; Some (g a v)).
Proof.
  unfold at2. rewrite lookup_zip_with.
  destruct (m !! b) as [mrow|]; [|done]. simpl.
  destruct (x !! b) as [xrow|]; simpl.
  - rewrite lookup_zip_with. done.
  - by destruct (mrow !! t).
Qed.

(** The closed form of [preprocess_object_features] on well-shaped
    arguments. *)
Lemma preprocess_closed_form (self : t) (B T D : nat)
    (x : Tensor3) (m p : Mask) :
  has_shape3 B T D x → has_shape2 B T m → has_shape2 B T p →
  length (mask_feat self) = D → length (pad_feat self) = D →
  preprocess_object_features self x (Some m) (Some p)
  = Some (zip_with (zip_with (choose (pad_feat self))) p
            (zip_with (zip_with (choose (mask_feat self))) m x)).
Proof.
  intros Hx Hm Hp Hmf Hpf. unfold preprocess_object_features.
  rewrite (substitute_closed_form B T D) by done. simpl.
  rewrite (substitute_closed_form B T D); [done|done| |done].
  by apply substitute_shape.
Qed.


Lemma at2_defined {X} (B T D : nat) (m : list (list X)) (x : Tensor3)
    (b t : nat) :
  has_shape2 B T m → has_shape3 B T D x →
  is_Some (at2 m b t) → is_Some (at2 x b t).
Proof.
  intros Hm Hx [a Ha].
  pose proof (shapes_Forall2 B T D m x Hm Hx) as Hmx.
  unfold at2 in *.
  destruct (m !! b) as [mrow|] eqn:Hmb; [|done]. simpl in Ha.
  destruct (Forall2_lookup_l _ _ _ _ _ Hmx Hmb) as (xrow & -> & Hrow).
  destruct (Forall2_lookup_l _ _ _ _ _ Hrow Ha) as (v & Hv & _).
  simpl. by eexists.
Qed.

(** C9. Without masks [preprocess_object_features] returns its feature
    argument unchanged, whatever the tensor is. *)
Theorem preprocess_no_masks_identity (self : t) (object_features : Tensor3) :
  preprocess_object_features self object_features None None
  = Some object_features.
Proof. reflexivity. Qed.

(** C8. At a position where both the object mask and the pad mask are set,
    the mask stage first puts [mask_feat] there and the pad stage, which
    runs on its result, replaces it by [pad_feat]: the feature returned at
    that position is the pad embedding. *)
Theorem pad_overwrites_mask (self : t) (B T D : nat)
    (x : Tensor3) (m p : Mask) (b t : nat) :
  has_shape3 B T D x → has_shape2 B T m → has_shape2 B T p →
  length (mask_feat self) = D → length (pad_feat self) = D →
  at2 m b t = Some true → at2 p b t = Some true →
  ∃ masked pre,
    substitute (unsqueeze2_float m) (mask_feat self) x = Some masked ∧
    at2 masked b t = Some (mask_feat self) ∧
    substitute (unsqueeze2_float p) (pad_feat self) masked = Some pre ∧
    preprocess_object_features self x (Some m) (Some p) = Some pre ∧
    at2 pre b t = Some (pad_feat self).
Proof.
  intros Hx Hm Hp Hmf Hpf Hmb Hpb.
  destruct (at2_defined B T D m x b t) as [v Hv]; [done..|].
  pose proof (substitute_shape B T D m (mask_feat self) x Hm Hx Hmf) as Hsh.
  eexists _, _. split_and!.
  - by apply (substitute_closed_form B T D).
  - rewrite at2_zip_with, Hmb, Hv. done.
  - by apply (substitute_closed_form B T D).
  - by apply (preprocess_closed_form self B T D).
  - rewrite !at2_zip_with, Hpb, Hmb, Hv. done.
Qed.

Lemma pad_overwrites_mask_witness :
  ∃ masked pre,
    substitute (unsqueeze2_float example_object_mask)
      (mask_feat example_encoder) example_features = Some masked ∧
    at2 masked 0 1 = Some (mask_feat example_encoder) ∧
    substitute (unsqueeze2_float example_pad_mask)
      (pad_feat example_encoder) masked = Some pre ∧
    preprocess_object_features example_encoder example_features
      (Some example_object_mask) (Some example_pad_mask) = Some pre ∧
    at2 pre 0 1 = Some (pad_feat example_encoder).
Proof.
  apply (pad_overwrites_mask example_encoder 1 3 2); try reflexivity.
  - split; [reflexivity|]. repeat constructor.
  - split; [reflexivity|]. repeat constructor.
  - split; [reflexivity|]. repeat constructor.
Defined.

(** C2. [forward] substitutes before it contextualises.  On well-shaped
    arguments [preprocess_object_features] returns a tensor of the same
    shape in which a position holds [pad_feat] where the pad bit is set,
    [mask_feat] where only the object-mask bit is set, and its original
    feature vector where neither is; the input layer is called once, on
    that tensor (with batch and position merged), and the context layer is
    fed nothing but the input layer's output on it. *)
Theorem forward_substitutes_before_context (self : t) (B T D : nat)
    (x : Tensor3) (m p : Mask) :
  has_shape3 B T D x → has_shape2 B T m → has_shape2 B T p →
  length (mask_feat self) = D → length (pad_feat self) = D →
  ∃ pre,
    preprocess_object_features self x (Some m) (Some p) = Some pre ∧
    has_shape3 B T D pre ∧
    (∀ b t v mb pb,
       at2 x b t = Some v → at2 m b t = Some mb → at2 p b t = Some pb →
       at2 pre b t = Some (if pb then pad_feat self
                           else if mb then mask_feat self else v)) ∧
    let calls := (forward self x (Some m) (Some p)).1 in
    input_layer_inputs calls = [view_rows pre] ∧
    context_layer_inputs calls =
      match input_layer self (view_rows pre) with
      | Some hidden =>
          match view_BT (size3 pre).1.1 (size3 pre).1.2 hidden with
          | Some transformer_input => [transformer_input]
          | None => []
          end
      | None => []
      end.
Proof.
  intros Hx Hm Hp Hmf Hpf.
  pose proof (preprocess_closed_form self B T D x m p Hx Hm Hp Hmf Hpf)
    as Hpre.
  eexists. split_and!; [exact Hpre|..].
  - apply substitute_shape; [done| |done]. by apply substitute_shape.
  - intros b t v mb pb Hv Hmb Hpb.
    rewrite !at2_zip_with, Hpb, Hmb, Hv. simpl. by destruct pb, mb.
  - unfold forward. rewrite Hpre.
    destruct (size3 _) as [[B' T'] D']. simpl.
    destruct (input_layer self _) as [hidden|]; [|done].
    destruct (view_BT B' T' hidden) as [ti|]; [|done].
    destruct (context_layer self ti) as [out|]; [|done].
    by destruct (attention out).
Qed.

Lemma forward_substitutes_before_context_witness :
  ∃ pre,
    preprocess_object_features example_encoder example_features
      (Some example_object_mask) (Some example_pad_mask) = Some pre ∧
    has_shape3 1 3 2 pre ∧
    (∀ b t v mb pb,
       at2 example_features b t = Some v →
       at2 example_object_mask b t = Some mb →
       at2 example_pad_mask b t = Some pb →
       at2 pre b t = Some (if pb then pad_feat example_encoder
                           else if mb then mask_feat example_encoder
                           else v)) ∧
    let calls := (forward example_encoder example_features
                    (Some example_object_mask)
                    (Some example_pad_mask)).1 in
    input_layer_inputs calls = [view_rows pre] ∧
    context_layer_inputs calls =
      match input_layer example_encoder (view_rows pre) with
      | Some hidden =>
          match view_BT (size3 pre).1.1 (size3 pre).1.2 hidden with
          | Some transformer_input => [transformer_input]
          | None => []
          end
      | None => []
      end.
Proof.
  apply (forward_substitutes_before_context example_encoder 1 3 2);
    try reflexivity.
  - split; [reflexivity|]. repeat constructor.
  - split; [reflexivity|]. repeat constructor.
  - split; [reflexivity|]. repeat constructor.
Defined.

End Substitution.
Import Train.

(** ** The training monad *)

Section Monad.
Context `{Network}.

Lemma bind_returns {X Y} (m : M X) (k : X → M Y) (g : bool) tr a :
  m g = (tr, inr a) → (m ≫= k) g = (tr ++ (k a g).1, (k a g).2).
Proof.
  intros Hm. unfold mbind, M_bind. rewrite Hm. by destruct (k a g).
Qed.

Lemma bind_raises {X Y} (m : M X) (k : X → M Y) (g : bool) tr e :
  m g = (tr, inl e) → (m ≫= k) g = (tr, inl e).
Proof. intros Hm. unfold mbind, M_bind. by rewrite Hm. Qed.

Lemma emit_then {Y} (e : event) (k : M Y) (g : bool) :
  (emit e;; k) g = (e :: (k g).1, (k g).2).
Proof. by erewrite bind_returns by done. Qed.

Lemma for_each_emit {X} (l : list X) (F : X → event) (g : bool) :
  for_each l (λ x, emit (F x)) g = (F <$> l, inr ()).
Proof.
  induction l as [|x l IH]; [done|].
  simpl. by rewrite emit_then, IH.
Qed.

Lemma add_scalars_run (log_items : list (string * Qc)) (step : Z) (g : bool) :
  add_scalars log_items step g
  = ((λ item, AddScalar item.1 item.2 step) <$> log_items, inr ()).
Proof. apply for_each_emit. Qed.

Lemma backward_pass_run exp_const opt data st g :
  backward_pass exp_const opt data st g =
  let l := forward_pass exp_const true (cur_weights st) data in
  let loss := weighted_loss exp_const
                (self_sup_loss l) (lang_sup_loss l) (neg_noun_loss l) in
  ([SetTrainMode; ForwardPass true g data; ZeroGrad; Backward loss;
    OptimizerStep],
   inr (l, loss, optimizer_update opt exp_const (cur_weights st) data)).
Proof. reflexivity. Qed.

Lemma log_block_run exp_const epoch it step l loss g :
  log_block exp_const epoch it step l loss g =
  if decide (log_step exp_const = 0%Z) then ([], inl ZeroDivisionError)
  else (log_events exp_const epoch it step l loss, inr ()).
Proof.
  unfold log_block, log_events, py_mod.
  destruct (decide (log_step exp_const = 0%Z)) as [Hz|Hz]; [reflexivity|].
  rewrite (decide_False (P := (50 * _ = 0)%Z)) by lia.
  erewrite bind_returns by reflexivity. simpl.
  destruct (bool_decide (step `mod` log_step exp_const = 0)%Z);
    (erewrite (bind_returns (when _ _)) by reflexivity);
    (erewrite bind_returns by reflexivity); simpl;
    destruct (bool_decide (step `mod` (50 * log_step exp_const) = 0)%Z);
    reflexivity.
Qed.

Lemma save_block_run exp_const w step best_val_loss g :
  save_block exp_const w step best_val_loss g =
  if decide (model_save_step exp_const = 0%Z) then
    ([], inl ZeroDivisionError)
  else if bool_decide (step `mod` model_save_step exp_const = 0)%Z then
    (periodic_save_events exp_const w step best_val_loss, inr ())
  else ([], inr ()).
Proof.
  unfold save_block, py_mod.
  case_decide; [reflexivity|].
  erewrite bind_returns by reflexivity.
  case_bool_decide; [|reflexivity].
  unfold when. by rewrite for_each_emit.
Qed.

Lemma validation_block_run model_const dataloaders exp_const w step
    best_val_loss val_passes g :
  validation_block model_const dataloaders exp_const w step
    best_val_loss val_passes g =
  if decide (val_step exp_const = 0%Z) then ([], inl ZeroDivisionError)
  else if bool_decide (step `mod` val_step exp_const = 0)%Z then
    let ev := eval_model {| const := model_const; weights := w |}
                (val dataloaders val_passes) exp_const step false in
    match ev.2 with
    | inl e => (ev.1, inl e)
    | inr eval_results =>
        if bool_decide (total_loss eval_results < best_val_loss) then
          (ev.1 ++ validation_log_events eval_results step
             ++ Print ("Saving best model at " +:+ pretty step +:+ " ...")
             :: best_save_events exp_const w step (total_loss eval_results)
                  best_val_loss,
           inr (total_loss eval_results, S val_passes))
        else
          (ev.1 ++ validation_log_events eval_results step,
           inr (best_val_loss, S val_passes))
    end
  else ([], inr (best_val_loss, val_passes)).
Proof.
  unfold validation_block, py_mod.
  case_decide; [reflexivity|].
  erewrite bind_returns by reflexivity. cbn [fst snd app].
  case_bool_decide; [|reflexivity].
  destruct (eval_model _ _ _ _ false) as [etr [e|res]] eqn:Hev;
    cbn [fst snd].
  - by erewrite bind_raises by exact Hev.
  - erewrite bind_returns by exact Hev.
    rewrite emit_then.
    erewrite bind_returns by apply add_scalars_run.
    case_bool_decide.
    + rewrite emit_then.
      erewrite bind_returns by apply for_each_emit.
      cbn [fst snd mret M_ret]. by rewrite app_nil_r.
    + cbn [fst snd mret M_ret]. by rewrite app_nil_r.
Qed.


(** The run of one iteration, case by case. *)
Lemma train_iteration_run model_const dataloaders exp_const opt epoch it
    data st g :
  train_iteration model_const dataloaders exp_const opt epoch it data st g =
  let l := forward_pass exp_const true (cur_weights st) data in
  let loss := weighted_loss exp_const
                (self_sup_loss l) (lang_sup_loss l) (neg_noun_loss l) in
  let w := optimizer_update opt exp_const (cur_weights st) data in
  let tB := backward_events exp_const data st g in
  let tL := log_events exp_const epoch it (step st) l loss in
  let tS := if bool_decide (step st `mod` model_save_step exp_const = 0)%Z
           then periodic_save_events exp_const w (step st) (best_val_loss st)
           else [] in
  let ev := eval_model {| const := model_const; weights := w |}
              (val dataloaders (val_passes st)) exp_const (step st) false in
  if decide (log_step exp_const = 0%Z) then (tB, inl ZeroDivisionError)
  else if decide (model_save_step exp_const = 0%Z) then
    (tB ++ tL, inl ZeroDivisionError)
  else if decide (val_step exp_const = 0%Z) then
    (tB ++ tL ++ tS, inl ZeroDivisionError)
  else if bool_decide (step st `mod` val_step exp_const = 0)%Z then
    match ev.2 with
    | inl e => (tB ++ tL ++ tS ++ ev.1, inl e)
    | inr eval_results =>
        if bool_decide (total_loss eval_results < best_val_loss st) then
          (tB ++ tL ++ tS ++ ev.1 ++ validation_log_events eval_results (step st)
             ++ Print ("Saving best model at " +:+ pretty (step st) +:+ " ...")
             :: best_save_events exp_const w (step st)
                  (total_loss eval_results) (best_val_loss st),
           inr {| cur_weights := w; step := step st + 1;
                  best_val_loss := total_loss eval_results;
                  val_passes := S (val_passes st) |})
        else
          (tB ++ tL ++ tS ++ ev.1 ++ validation_log_events eval_results (step st),
           inr {| cur_weights := w; step := step st + 1;
                  best_val_loss := best_val_loss st;
                  val_passes := S (val_passes st) |})
    end
  else
    (tB ++ tL ++ tS,
     inr {| cur_weights := w; step := step st + 1;
            best_val_loss := best_val_loss st;
            val_passes := val_passes st |}).
Proof.
  cbv zeta. unfold train_iteration.
  erewrite bind_returns by apply backward_pass_run. cbv zeta.
  pose proof (log_block_run exp_const epoch it (step st)
    (forward_pass exp_const true (cur_weights st) data)
    (weighted_loss exp_const
       (self_sup_loss (forward_pass exp_const true (cur_weights st) data))
       (lang_sup_loss (forward_pass exp_const true (cur_weights st) data))
       (neg_noun_loss (forward_pass exp_const true (cur_weights st) data)))
    g) as HL.
  destruct (decide (log_step exp_const = 0%Z)).
  { erewrite bind_raises by exact HL. by rewrite app_nil_r. }
  erewrite bind_returns by exact HL.
  pose proof (save_block_run exp_const
    (optimizer_update opt exp_const (cur_weights st) data)
    (step st) (best_val_loss st) g) as HS.
  destruct (decide (model_save_step exp_const = 0%Z)).
  { erewrite bind_raises by exact HS. by rewrite app_nil_r. }
  assert (∃ tS, save_block exp_const
    (optimizer_update opt exp_const (cur_weights st) data)
    (step st) (best_val_loss st) g = (tS, inr ()) ∧
    tS = if bool_decide (step st `mod` model_save_step exp_const = 0)%Z
        then periodic_save_events exp_const
               (optimizer_update opt exp_const (cur_weights st) data)
               (step st) (best_val_loss st)
        else []) as (tS & HS' & ->).
  { rewrite HS. case_bool_decide; eauto. }
  erewrite bind_returns by exact HS'. cbn [fst snd].
  pose proof (validation_block_run model_const dataloaders exp_const
    (optimizer_update opt exp_const (cur_weights st) data)
    (step st) (best_val_loss st) (val_passes st) g) as HV.
  cbv zeta in HV.
  destruct (decide (val_step exp_const = 0%Z)).
  { erewrite bind_raises by exact HV. by rewrite app_nil_r. }
  case_bool_decide.
  - destruct (eval_model _ _ _ _ false) as [etr [e|res]]; cbn [fst snd] in *.
    + by erewrite bind_raises by exact HV.
    + case_bool_decide; erewrite bind_returns by exact HV;
        cbn [fst snd mret M_ret]; by rewrite app_nil_r.
  - erewrite bind_returns by exact HV. cbn [fst snd mret M_ret].
    by rewrite !app_nil_r.
Qed.


End Monad.

(** ** [eval_model] *)

Section Evaluation.
Context `{Network}.

Lemma weighted_sum_cons exp_const w (term : LossTerms → Qc)
    (data : Batch Annotations) (batches : list (Batch Annotations)) :
  weighted_sum exp_const w term (data :: batches)
  = term (forward_pass exp_const false w data) * Qc_of_Z (batch_size data)
    + weighted_sum exp_const w term batches.
Proof. reflexivity. Qed.

Lemma samples_cons (data : Batch Annotations)
    (batches : list (Batch Annotations)) :
  samples (data :: batches) = (batch_size data + samples batches)%Z.
Proof. reflexivity. Qed.

Lemma samples_app (p q : list (Batch Annotations)) :
  samples (p ++ q) = (samples p + samples q)%Z.
Proof.
  induction p as [|d p IH]; [done|].
  rewrite <-app_comm_cons, !samples_cons, IH. lia.
Qed.

Lemma eval_loop_run w exp_const dataloader acc g :
  eval_loop w exp_const dataloader acc g =
  let batches := consumed exp_const (num_samples acc) dataloader in
  (ForwardPass false g <$> batches,
   inr {| avg_self_sup_loss :=
            avg_self_sup_loss acc
            + weighted_sum exp_const w self_sup_loss batches;
          avg_lang_sup_loss :=
            avg_lang_sup_loss acc
            + weighted_sum exp_const w lang_sup_loss batches;
          avg_neg_noun_loss :=
            avg_neg_noun_loss acc
            + weighted_sum exp_const w neg_noun_loss batches;
          num_samples := num_samples acc + samples batches |}).
Proof.
  revert acc. induction dataloader as [|data dataloader IH]; intros acc.
  - destruct acc. simpl. by rewrite !Qcplus_0_r, Z.add_0_r.
  - cbn [eval_loop consumed]. unfold should_break.
    destruct (num_val_samples exp_const) as [k|] eqn:Hk.
    + case_bool_decide.
      * destruct acc. simpl. by rewrite !Qcplus_0_r, Z.add_0_r.
      * erewrite bind_returns by reflexivity. rewrite emit_then, IH.
        cbv zeta. cbn [fst snd app num_samples avg_self_sup_loss
                       avg_lang_sup_loss avg_neg_noun_loss].
        rewrite !weighted_sum_cons, samples_cons, fmap_cons.
        unfold batch_size. by rewrite !Qcplus_assoc, Z.add_assoc.
    + erewrite bind_returns by reflexivity. rewrite emit_then, IH.
      cbv zeta. cbn [fst snd app num_samples avg_self_sup_loss
                     avg_lang_sup_loss avg_neg_noun_loss].
      rewrite !weighted_sum_cons, samples_cons, fmap_cons.
      unfold batch_size. by rewrite !Qcplus_assoc, Z.add_assoc.
Qed.


Lemma eval_model_run model dataloader exp_const step g :
  eval_model model dataloader exp_const step g =
  let batches := consumed exp_const 0 dataloader in
  let n := samples batches in
  let avg term :=
    weighted_sum exp_const (weights model) term batches / Qc_of_Z n in
  (SetEvalMode :: (ForwardPass false g <$> batches),
   if decide (n = 0%Z) then inl ZeroDivisionError
   else inr {| res_self_sup_loss := avg self_sup_loss;
               res_lang_sup_loss := avg lang_sup_loss;
               res_neg_noun_loss := avg neg_noun_loss;
               total_loss :=
                 weighted_loss exp_const (avg self_sup_loss)
                   (avg lang_sup_loss) (avg neg_noun_loss) |}).
Proof.
  unfold eval_model. rewrite emit_then.
  erewrite bind_returns by apply eval_loop_run.
  cbv zeta. cbn [num_samples avg_self_sup_loss avg_lang_sup_loss
                 avg_neg_noun_loss].
  rewrite Z.add_0_l, !Qcplus_0_l. unfold py_div.
  case_decide.
  - erewrite bind_raises by reflexivity. cbn [fst snd].
    by rewrite app_nil_r.
  - do 3 (erewrite bind_returns by reflexivity; cbn [fst snd app]).
    cbn [mret M_ret fst snd]. by rewrite app_nil_r.
Qed.

Lemma consumed_prefix exp_const n dataloader :
  ∃ rest, dataloader = consumed exp_const n dataloader ++ rest ∧
    match num_val_samples exp_const with
    | None => rest = []
    | Some k =>
        (rest ≠ [] → (k ≤ n + samples (consumed exp_const n dataloader))%Z) ∧
        (∀ p d q, consumed exp_const n dataloader = p ++ d :: q →
                  (n + samples p < k)%Z)
    end.
Proof.
  revert n. induction dataloader as [|data dataloader IH]; intros n.
  - exists []. split; [done|].
    destruct (num_val_samples exp_const); [|done].
    split; [done|]. intros [|??] ???; discriminate.
  - cbn [consumed]. destruct (IH (n + Z.of_nat (length (features data)))%Z)
      as (rest & Hrest & Hcut).
    destruct (num_val_samples exp_const) as [k|].
    + case_bool_decide as Hk.
      * exists (data :: dataloader). split; [done|]. split.
        -- intros _. simpl. lia.
        -- intros [|??] ???; discriminate.
      * exists rest. split; [by rewrite <-app_comm_cons, <-Hrest|].
        destruct Hcut as [Hcut1 Hcut2]. split.
        -- intros Hne. rewrite samples_cons. unfold batch_size.
           specialize (Hcut1 Hne). lia.
        -- intros [|d' p] d q Heq.
           { simpl. lia. }
           rewrite <-app_comm_cons in Heq. injection Heq as -> Heq.
           specialize (Hcut2 _ _ _ Heq).
           rewrite samples_cons. unfold batch_size. lia.
    + exists rest. subst rest. split; [|done].
      by rewrite app_nil_r in Hrest |- *; rewrite <-Hrest.
Qed.

Lemma omap_fmap_Some {X Y Z} (f : Y → option Z) (F : X → Y) (G : X → Z)
    (l : list X) :
  (∀ x, f (F x) = Some (G x)) → omap f (F <$> l) = G <$> l.
Proof.
  intros Hf. induction l as [|x l IH]; [done|].
  cbn [fmap list_fmap omap list_omap]. rewrite Hf. f_equal. exact IH.
Qed.

Lemma omap_fmap_None {X Y Z} (f : Y → option Z) (F : X → Y) (l : list X) :
  (∀ x, f (F x) = None) → omap f (F <$> l) = [].
Proof.
  intros Hf. induction l as [|x l IH]; [done|].
  cbn [fmap list_fmap omap list_omap]. rewrite Hf. exact IH.
Qed.

Lemma eval_batches_forward g (batches : list (Batch Annotations)) :
  eval_batches (SetEvalMode :: (ForwardPass false g <$> batches)) = batches.
Proof.
  unfold eval_batches. cbn [omap list_omap].
  rewrite (omap_fmap_Some _ _ id) by done. apply list_fmap_id.
Qed.

End Evaluation.

(** ** The loops of [train_model] *)

Section Loops.
Context `{Network}.
Context (model_const : ModelConst) (dataloaders : DataLoaders)
        (exp_const : ExpConst) (opt : Optimizer) (g : bool).

(** A property of (start state, trace) pairs that holds of the empty trace
    and is carried over one iteration holds of every run of the loops. *)
Section Induction.
Context (P : LoopState → list event → Prop).
Hypothesis P_nil : ∀ st, P st [].
Hypothesis P_iteration : ∀ st epoch it data,
  let r := train_iteration model_const dataloaders exp_const opt
             epoch it data st g in
  match r.2 with
  | inl _ => P st r.1
  | inr st' => ∀ tr', P st' tr' → P st (r.1 ++ tr')
  end.

Lemma train_epoch_carries epoch batches : ∀ it st,
  let r := train_epoch model_const dataloaders exp_const opt
             epoch it batches st g in
  match r.2 with
  | inl _ => P st r.1
  | inr st' => ∀ tr', P st' tr' → P st (r.1 ++ tr')
  end.
Proof.
  induction batches as [|data batches IH]; intros it st; cbv zeta.
  - simpl. auto.
  - cbn [train_epoch].
    pose proof (P_iteration st epoch it data) as Hit. cbv zeta in Hit.
    destruct (train_iteration _ _ _ _ _ _ _ _ g) as [tr [e|st']] eqn:Hrun;
      cbn [fst snd] in Hit.
    + by erewrite bind_raises by exact Hrun.
    + erewrite bind_returns by exact Hrun. cbn [fst snd].
      specialize (IH (S it) st').
      destruct (train_epoch _ _ _ _ _ _ _ _ g) as [tr2 [e|st'']];
        cbn [fst snd] in *.
      * apply Hit, IH.
      * intros tr' Htr'. rewrite <-app_assoc. apply Hit, IH, Htr'.
Qed.

Lemma train_epochs_carries n : ∀ epoch st,
  let r := train_epochs model_const dataloaders exp_const opt
             n epoch st g in
  match r.2 with
  | inl _ => P st r.1
  | inr st' => ∀ tr', P st' tr' → P st (r.1 ++ tr')
  end.
Proof.
  induction n as [|n IH]; intros epoch st; cbv zeta.
  - simpl. auto.
  - cbn [train_epochs].
    pose proof (train_epoch_carries epoch (train dataloaders epoch) 0 st)
      as Hep. cbv zeta in Hep.
    destruct (train_epoch _ _ _ _ _ _ _ _ g) as [tr [e|st']] eqn:Hrun;
      cbn [fst snd] in Hep.
    + by erewrite bind_raises by exact Hrun.
    + erewrite bind_returns by exact Hrun. cbn [fst snd].
      specialize (IH (S epoch) st').
      destruct (train_epochs _ _ _ _ _ _ _ g) as [tr2 [e|st'']];
        cbn [fst snd] in *.
      * apply Hep, IH.
      * intros tr' Htr'. rewrite <-app_assoc. apply Hep, IH, Htr'.
Qed.

Lemma train_epochs_trace n epoch st :
  P st (train_epochs model_const dataloaders exp_const opt n epoch st g).1.
Proof.
  pose proof (train_epochs_carries n epoch st) as Hrun. cbv zeta in Hrun.
  destruct (train_epochs _ _ _ _ _ _ _ g) as [tr [e|st']];
    cbn [fst snd] in *; [done|].
  rewrite <-(app_nil_r tr). apply Hrun, P_nil.
Qed.

End Induction.
End Loops.

Section TrainModel.
Context `{Network}.

Lemma make_optimizer_run exp_const g :
  make_optimizer exp_const g =
  if bool_decide (optimizer exp_const = "SGD") then
    ([], inr (SGD (lr exp_const) (momentum exp_const)))
  else if bool_decide (optimizer exp_const = "Adam") then
    ([], inr (Adam (lr exp_const)))
  else ([], inl (AssertionError "optimizer not implemented")).
Proof. unfold make_optimizer. by repeat case_bool_decide. Qed.

(** The trace of [train_model] is empty when the optimiser is rejected and
    the trace of the loops otherwise. *)
Lemma train_model_trace model dataloaders exp_const g :
  (train_model model dataloaders exp_const g).1 =
  match (make_optimizer exp_const g).2 with
  | inr opt =>
      (train_epochs (const model) dataloaders exp_const opt
         (Z.to_nat (num_epochs exp_const)) 0 (initial_state model) g).1
  | inl _ => []
  end.
Proof.
  unfold train_model.
  destruct (make_optimizer exp_const g) as [tr [e|opt]] eqn:Hopt.
  - erewrite bind_raises by exact Hopt.
    rewrite make_optimizer_run in Hopt. by repeat case_bool_decide; simplify_eq.
  - erewrite bind_returns by exact Hopt.
    assert (tr = []) as ->.
    { rewrite make_optimizer_run in Hopt.
      by repeat case_bool_decide; simplify_eq. }
    cbn [fst snd app].
    destruct (train_epochs _ _ _ _ _ _ _ g) as [tr2 [e|st']] eqn:Hrun.
    + by erewrite bind_raises by exact Hrun.
    + erewrite bind_returns by exact Hrun. cbn [fst snd mret M_ret].
      by rewrite app_nil_r.
Qed.

(** Whatever holds of the traces of the loops holds of [train_model]. *)
Lemma train_model_trace_ind (P : LoopState → list event → Prop)
    model dataloaders exp_const g :
  (∀ st, P st []) →
  (∀ opt st epoch it data,
     let r := train_iteration (const model) dataloaders exp_const opt
                epoch it data st g in
     match r.2 with
     | inl _ => P st r.1
     | inr st' => ∀ tr', P st' tr' → P st (r.1 ++ tr')
     end) →
  P (initial_state model) (train_model model dataloaders exp_const g).1.
Proof.
  intros Hnil Hit. rewrite train_model_trace.
  destruct (make_optimizer exp_const g).2 as [e|opt]; [apply Hnil|].
  apply train_epochs_trace; [apply Hnil|]. intros. apply Hit.
Qed.

End TrainModel.

(** ** Checkpoint paths *)

Section Paths.
Context `{Network}.

Lemma os_path_join_inj (a b1 b2 : string) :
  String.prefix "/" b1 = false → String.prefix "/" b2 = false →
  os_path_join a b1 = os_path_join a b2 → b1 = b2.
Proof.
  unfold os_path_join. intros -> ->.
  destruct (bool_decide (a = "") || ends_with_slash a); intros Heq.
  - by apply (inj (String.app a)) in Heq.
  - apply (inj (String.app a)) in Heq. by apply (inj (String.app "/")) in Heq.
Qed.

Lemma best_path_is_best exp_const (item : string * Component) :
  item ∈ best_save_items exp_const →
  is_best_path exp_const (os_path_join (model_dir exp_const) item.1) = true.
Proof.
  intros Hin. apply bool_decide_eq_true.
  by apply (list_elem_of_fmap_2
              (λ item : string * Component,
                 os_path_join (model_dir exp_const) item.1)).
Qed.

Lemma periodic_path_not_best exp_const (item : string * Component) (step : Z) :
  item ∈ periodic_save_items exp_const →
  is_best_path exp_const
    (os_path_join (model_dir exp_const) (item.1 +:+ "_" +:+ pretty step))
  = false.
Proof.
  intros Hin. apply bool_decide_eq_false. intros Hbest.
  apply list_elem_of_fmap in Hbest as (best & Heq & Hbest).
  unfold periodic_save_items, best_save_items in *.
  assert (String.prefix "/" (item.1 +:+ "_" +:+ pretty step) = false
          ∧ String.prefix "/" best.1 = false
          ∧ item.1 +:+ "_" +:+ pretty step ≠ best.1) as (Hp1 & Hp2 & Hne).
  { destruct (random_lang exp_const);
      repeat (apply elem_of_cons in Hin as [->|Hin]);
      try (by apply elem_of_nil in Hin);
      repeat (apply elem_of_cons in Hbest as [->|Hbest]);
      try (by apply elem_of_nil in Hbest);
      by split_and!. }
  by apply os_path_join_inj in Heq.
Qed.

End Paths.

(** ** What the blocks of an iteration emit *)

Section Segments.
Context `{Network}.
Context {X : Type} (f : event → option X).

Lemma omap_log_events exp_const epoch it step l loss :
  (∀ name value s, f (AddScalar name value s) = None) →
  (∀ e i s items, f (PrintLog e i s items) = None) →
  (∀ s, f (Print s) = None) →
  omap f (log_events exp_const epoch it step l loss) = [].
Proof.
  intros Hs Hl Hp. unfold log_events.
  do 2 case_bool_decide; cbn [fmap list_fmap app omap list_omap];
    by rewrite ?Hs, ?Hl, ?Hp.
Qed.

Lemma omap_validation_log_events eval_results step :
  (∀ name value s, f (AddScalar name value s) = None) →
  (∀ r, f (PrintVal r) = None) →
  omap f (validation_log_events eval_results step) = [].
Proof.
  intros Hs Hv. unfold validation_log_events.
  cbn [fmap list_fmap app omap list_omap]. by rewrite ?Hs, ?Hv.
Qed.

Lemma omap_eval_model model dataloader exp_const step g :
  f SetEvalMode = None →
  (∀ data, f (ForwardPass false g data) = None) →
  omap f (eval_model model dataloader exp_const step g).1 = [].
Proof.
  intros Hm Hf. rewrite eval_model_run. cbv zeta. cbn [fst omap list_omap].
  rewrite Hm. by apply omap_fmap_None.
Qed.

Lemma omap_periodic_save_events exp_const w step best :
  (∀ obj path, f (TorchSave obj path) = None) →
  omap f (periodic_save_events exp_const w step best) = [].
Proof. intros Hs. by apply omap_fmap_None. Qed.

Lemma omap_if_periodic_save_events (b : bool) exp_const w step best :
  (∀ obj path, f (TorchSave obj path) = None) →
  omap f (if b then periodic_save_events exp_const w step best else []) = [].
Proof. intros Hs. destruct b; [by apply omap_fmap_None|done]. Qed.

Lemma omap_best_save_events exp_const w step val_loss best :
  (∀ obj path, f (TorchSave obj path) = None) →
  omap f (best_save_events exp_const w step val_loss best) = [].
Proof. intros Hs. by apply omap_fmap_None. Qed.

Lemma omap_backward_events exp_const data st g :
  f SetTrainMode = None → (∀ d, f (ForwardPass true g d) = None) →
  f ZeroGrad = None → (∀ loss, f (Backward loss) = None) →
  f OptimizerStep = None →
  omap f (backward_events exp_const data st g) = [].
Proof.
  intros H1 H2 H3 H4 H5. unfold backward_events.
  cbn [omap list_omap]. by rewrite H1, H2, H3, H4, H5.
Qed.

End Segments.

(** Splitting the run of an iteration into its cases. *)
Ltac iteration_cases :=
  rewrite train_iteration_run; cbv zeta;
  destruct (decide (log_step _ = 0%Z)) as [Hlog|Hlog];
  [|destruct (decide (model_save_step _ = 0%Z)) as [Hsave|Hsave];
    [|destruct (decide (val_step _ = 0%Z)) as [Hval|Hval];
      [|destruct (bool_decide (_ `mod` val_step _ = 0)%Z) eqn:Hvalidate;
        [destruct (eval_model _ _ _ _ false) as [etr [e|res]] eqn:Hev;
         cbn [fst snd];
         [|destruct (bool_decide (total_loss res < _)) eqn:Himproved]|]]]];
  cbn [fst snd].

Ltac quiet_segments :=
  rewrite ?omap_app;
  rewrite ?omap_log_events, ?omap_validation_log_events,
    ?omap_periodic_save_events, ?omap_best_save_events,
    ?omap_backward_events by done;
  rewrite ?app_nil_l, ?app_nil_r.

Section Extractors.
Context `{Network}.

Lemma omap_fmap_Some_Forall {A B C} (f : B → option C) (F : A → B)
    (G : A → C) (l : list A) :
  Forall (λ x, f (F x) = Some (G x)) l → omap f (F <$> l) = G <$> l.
Proof.
  induction 1 as [|x l Hx _ IH]; [done|].
  cbn [fmap list_fmap omap list_omap]. rewrite Hx. f_equal. exact IH.
Qed.

Lemma omap_fmap_None_Forall {A B C} (f : B → option C) (F : A → B)
    (l : list A) :
  Forall (λ x, f (F x) = None) l → omap f (F <$> l) = [].
Proof.
  induction 1 as [|x l Hx _ IH]; [done|].
  cbn [fmap list_fmap omap list_omap]. rewrite Hx. exact IH.
Qed.

Lemma best_checkpoints_periodic exp_const w step best :
  best_checkpoints exp_const (periodic_save_events exp_const w step best) = [].
Proof.
  apply omap_fmap_None_Forall, Forall_forall. intros item Hitem.
  by rewrite periodic_path_not_best.
Qed.

Lemma periodic_checkpoints_periodic exp_const w step best :
  periodic_checkpoints exp_const (periodic_save_events exp_const w step best)
  = (λ item : string * Component,
       {| ckpt_state_dict := state_dict w item.2;
          ckpt_step := step;
          ckpt_val_loss := None;
          ckpt_prev_best_val_loss := best |})
    <$> periodic_save_items exp_const.
Proof.
  apply omap_fmap_Some_Forall, Forall_forall. intros item Hitem.
  by rewrite periodic_path_not_best.
Qed.

Lemma best_checkpoints_best exp_const w step val_loss best :
  best_checkpoints exp_const (best_save_events exp_const w step val_loss best)
  = (λ item : string * Component,
       {| ckpt_state_dict := state_dict w item.2;
          ckpt_step := step;
          ckpt_val_loss := Some val_loss;
          ckpt_prev_best_val_loss := best |})
    <$> best_save_items exp_const.
Proof.
  apply omap_fmap_Some_Forall, Forall_forall. intros item Hitem.
  by rewrite best_path_is_best.
Qed.

Lemma periodic_checkpoints_best exp_const w step val_loss best :
  periodic_checkpoints exp_const
    (best_save_events exp_const w step val_loss best) = [].
Proof.
  apply omap_fmap_None_Forall, Forall_forall. intros item Hitem.
  by rewrite best_path_is_best.
Qed.

Lemma eval_trace_quiet {X} (f : event → option X) model dataloader
    exp_const step g etr r :
  eval_model model dataloader exp_const step g = (etr, r) →
  f SetEvalMode = None → (∀ data, f (ForwardPass false g data) = None) →
  omap f etr = [].
Proof.
  intros Hev Hm Hf.
  by rewrite <-(omap_eval_model f model dataloader exp_const step g), Hev.
Qed.

Lemma best_checkpoints_app exp_const (tr1 tr2 : list event) :
  best_checkpoints exp_const (tr1 ++ tr2)
  = best_checkpoints exp_const tr1 ++ best_checkpoints exp_const tr2.
Proof. apply omap_app. Qed.

Lemma periodic_checkpoints_app exp_const (tr1 tr2 : list event) :
  periodic_checkpoints exp_const (tr1 ++ tr2)
  = periodic_checkpoints exp_const tr1 ++ periodic_checkpoints exp_const tr2.
Proof. apply omap_app. Qed.

Lemma best_checkpoints_backward exp_const data st g :
  best_checkpoints exp_const (backward_events exp_const data st g) = [].
Proof. by apply omap_backward_events. Qed.

Lemma best_checkpoints_log exp_const epoch it step l loss :
  best_checkpoints exp_const (log_events exp_const epoch it step l loss) = [].
Proof. by apply omap_log_events. Qed.

Lemma best_checkpoints_validation_log exp_const eval_results step :
  best_checkpoints exp_const (validation_log_events eval_results step) = [].
Proof. by apply omap_validation_log_events. Qed.

Lemma best_checkpoints_eval exp_const model dataloader exp_const' step g :
  best_checkpoints exp_const
    (eval_model model dataloader exp_const' step g).1 = [].
Proof. by apply omap_eval_model. Qed.

Lemma best_checkpoints_if_periodic exp_const (b : bool) w step best :
  best_checkpoints exp_const
    (if b then periodic_save_events exp_const w step best else []) = [].
Proof. destruct b; [apply best_checkpoints_periodic|done]. Qed.

Lemma best_checkpoints_print exp_const s (tr : list event) :
  best_checkpoints exp_const (Print s :: tr) = best_checkpoints exp_const tr.
Proof. done. Qed.

Lemma periodic_checkpoints_backward exp_const data st g :
  periodic_checkpoints exp_const (backward_events exp_const data st g) = [].
Proof. by apply omap_backward_events. Qed.

Lemma periodic_checkpoints_log exp_const epoch it step l loss :
  periodic_checkpoints exp_const
    (log_events exp_const epoch it step l loss) = [].
Proof. by apply omap_log_events. Qed.

Lemma periodic_checkpoints_validation_log exp_const eval_results step :
  periodic_checkpoints exp_const (validation_log_events eval_results step)
  = [].
Proof. by apply omap_validation_log_events. Qed.

Lemma periodic_checkpoints_eval exp_const model dataloader exp_const' step g :
  periodic_checkpoints exp_const
    (eval_model model dataloader exp_const' step g).1 = [].
Proof. by apply omap_eval_model. Qed.

Lemma periodic_checkpoints_if_periodic exp_const (b : bool) w step best :
  periodic_checkpoints exp_const
    (if b then periodic_save_events exp_const w step best else [])
  = if b then
      (λ item : string * Component,
         {| ckpt_state_dict := state_dict w item.2;
            ckpt_step := step;
            ckpt_val_loss := None;
            ckpt_prev_best_val_loss := best |})
      <$> periodic_save_items exp_const
    else [].
Proof. destruct b; [apply periodic_checkpoints_periodic|done]. Qed.

Lemma periodic_checkpoints_print exp_const s (tr : list event) :
  periodic_checkpoints exp_const (Print s :: tr)
  = periodic_checkpoints exp_const tr.
Proof. done. Qed.

End Extractors.

Ltac checkpoint_segments :=
  rewrite ?best_checkpoints_app, ?periodic_checkpoints_app,
    ?best_checkpoints_print, ?periodic_checkpoints_print,
    ?best_checkpoints_backward, ?best_checkpoints_log,
    ?best_checkpoints_validation_log, ?best_checkpoints_if_periodic,
    ?best_checkpoints_best, ?best_checkpoints_periodic,
    ?periodic_checkpoints_backward, ?periodic_checkpoints_log,
    ?periodic_checkpoints_validation_log, ?periodic_checkpoints_best,
    ?periodic_checkpoints_if_periodic, ?periodic_checkpoints_periodic,
    ?app_nil_l, ?app_nil_r.

Section Iteration.
Context `{Network}.

(** The 'best' checkpoints of one iteration: none, and the best loss is
    carried over unchanged, unless a validation pass ran to its end and
    improved on it. *)
Lemma best_checkpoints_iteration model_const dataloaders exp_const opt
    epoch it data st g :
  let r := train_iteration model_const dataloaders exp_const opt
             epoch it data st g in
  let w := optimizer_update opt exp_const (cur_weights st) data in
  let ev := eval_model {| const := model_const; weights := w |}
              (val dataloaders (val_passes st)) exp_const (step st) false in
  (best_checkpoints exp_const r.1 = [] ∧
   (∀ st', r.2 = inr st' → best_val_loss st' = best_val_loss st) ∧
   ¬ (log_step exp_const ≠ 0%Z ∧ model_save_step exp_const ≠ 0%Z ∧
      val_step exp_const ≠ 0%Z ∧
      (step st `mod` val_step exp_const = 0)%Z ∧
      ∃ res, ev.2 = inr res ∧ total_loss res < best_val_loss st))
  ∨ (∃ res,
       log_step exp_const ≠ 0%Z ∧ model_save_step exp_const ≠ 0%Z ∧
       val_step exp_const ≠ 0%Z ∧
       (step st `mod` val_step exp_const = 0)%Z ∧
       ev.2 = inr res ∧ total_loss res < best_val_loss st ∧
       best_checkpoints exp_const r.1 =
         (λ item : string * Component,
            {| ckpt_state_dict := state_dict w item.2;
               ckpt_step := step st;
               ckpt_val_loss := Some (total_loss res);
               ckpt_prev_best_val_loss := best_val_loss st |})
         <$> best_save_items exp_const ∧
       ∃ st', r.2 = inr st' ∧ best_val_loss st' = total_loss res).
Proof.
  cbv zeta. iteration_cases;
    try apply bool_decide_eq_true in Hvalidate;
    try apply bool_decide_eq_false in Hvalidate;
    try apply bool_decide_eq_true in Himproved;
    try apply bool_decide_eq_false in Himproved;
    try (pose proof (best_checkpoints_eval exp_const
           {| const := model_const;
              weights := optimizer_update opt exp_const (cur_weights st) data |}
           (val dataloaders (val_passes st)) exp_const (step st) false)
           as Hquiet; rewrite Hev in Hquiet; cbn [fst] in Hquiet);
    checkpoint_segments; rewrite ?Hquiet; checkpoint_segments.
  - left. split_and!; [done|done|]. intros (? & _); done.
  - left. split_and!; [done|done|]. intros (? & ? & _); done.
  - left. split_and!; [done|done|]. intros (? & ? & ? & _); done.
  - left. split_and!; [done|done|].
    intros (_ & _ & _ & _ & res & ? & _); done.
  - right. exists res. split_and!; try done. by eexists.
  - left. split_and!; [done|by intros ? [= <-]|].
    intros (_ & _ & _ & _ & res' & ? & ?). by simplify_eq.
  - left. split_and!; [done|by intros ? [= <-]|].
    intros (_ & _ & _ & ? & _); done.
Qed.

(** The periodic checkpoints of one iteration. *)
Lemma periodic_checkpoints_iteration model_const dataloaders exp_const opt
    epoch it data st g :
  periodic_checkpoints exp_const
    (train_iteration model_const dataloaders exp_const opt
       epoch it data st g).1
  = if decide (log_step exp_const ≠ 0%Z ∧ model_save_step exp_const ≠ 0%Z ∧
               (step st `mod` model_save_step exp_const = 0)%Z)
    then (λ item : string * Component,
            {| ckpt_state_dict :=
                 state_dict
                   (optimizer_update opt exp_const (cur_weights st) data)
                   item.2;
               ckpt_step := step st;
               ckpt_val_loss := None;
               ckpt_prev_best_val_loss := best_val_loss st |})
         <$> periodic_save_items exp_const
    else [].
Proof.
  iteration_cases;
    try (pose proof (periodic_checkpoints_eval exp_const
           {| const := model_const;
              weights := optimizer_update opt exp_const (cur_weights st) data |}
           (val dataloaders (val_passes st)) exp_const (step st) false)
           as Hquiet; rewrite Hev in Hquiet; cbn [fst] in Hquiet);
    checkpoint_segments; rewrite ?Hquiet; checkpoint_segments;
    try (by rewrite decide_False by (intros (? & ? & ?); done)).
  all: destruct (bool_decide (_ `mod` model_save_step _ = 0)%Z) eqn:Hperiod;
    [apply bool_decide_eq_true in Hperiod; by rewrite decide_True by done
    |apply bool_decide_eq_false in Hperiod;
     by rewrite decide_False by (intros (? & ? & ?); done)].
Qed.

End Iteration.

(** ** The sequence of best checkpoints *)

Section BestCheckpoints.
Context `{Network}.

Lemma descends_weaken (b b' : Qc) (vals : list Qc) :
  b ≤ b' → descends b vals → descends b' vals.
Proof.
  destruct vals as [|v vals]; [done|]. simpl.
  intros Hb [Hv Hvals]. split; [|done]. by eapply Qcle_trans.
Qed.

Lemma descends_constant_app {A} (b v : Qc) (l : list A) (vals : list Qc) :
  v ≤ b → descends v vals → descends b (((λ _, v) <$> l) ++ vals).
Proof.
  intros Hv Hvals. revert b Hv. induction l as [|x l IH]; intros b Hv.
  - by eapply descends_weaken.
  - simpl. split; [done|]. apply IH, Qcle_refl.
Qed.

Lemma descends_sorted (b : Qc) (vals : list Qc) :
  descends b vals →
  Forall (λ v, v ≤ b) vals ∧
  StronglySorted (λ earlier later, later ≤ earlier) vals.
Proof.
  revert b. induction vals as [|v vals IH]; intros b.
  - split; constructor.
  - simpl. intros [Hv Hvals]. destruct (IH v Hvals) as [Hall Hsorted].
    split.
    + constructor; [done|]. eapply Forall_impl; [done|].
      intros v' Hv'. simpl in *. by eapply Qcle_trans.
    + by constructor.
Qed.

(** C1. The validation losses recorded in the 'best' checkpoints that a run
    of [train_model] writes, in the order in which they are written, never
    go up: every one of them is at most each of those written before it
    (and every 'best' checkpoint does record a loss). *)
Theorem best_val_loss_non_increasing (model : TrainedModel)
    (dataloaders : DataLoaders) (exp_const : ExpConst) (g : bool) :
  ∃ vals : list Qc,
    ckpt_val_loss
      <$> best_checkpoints exp_const
            (train_model model dataloaders exp_const g).1
    = Some <$> vals ∧
    StronglySorted (λ earlier later, later ≤ earlier) vals.
Proof.
  cut (∃ vals : list Qc,
         ckpt_val_loss
           <$> best_checkpoints exp_const
                 (train_model model dataloaders exp_const g).1
         = Some <$> vals ∧
         descends (best_val_loss (initial_state model)) vals).
  { intros (vals & Hvals & Hdesc). exists vals. split; [done|].
    by eapply descends_sorted. }
  apply (train_model_trace_ind
           (λ st tr, ∃ vals : list Qc,
              ckpt_val_loss <$> best_checkpoints exp_const tr = Some <$> vals
              ∧ descends (best_val_loss st) vals)).
  - intros st. by exists [].
  - intros opt st epoch it data. cbv zeta.
    pose proof (best_checkpoints_iteration (const model) dataloaders
                  exp_const opt epoch it data st g) as Hit.
    cbv zeta in Hit.
    destruct (train_iteration _ _ _ _ _ _ _ _ g) as [tr [e|st']];
      cbn [fst snd] in *.
    + destruct Hit as [(Hnone & _ & _)|(res & _ & _ & _ & _ & _ & _ & _ & st' & ? & _)];
        [|done].
      exists []. by rewrite Hnone.
    + destruct Hit as [(Hnone & Hsame & _)
                      |(res & _ & _ & _ & _ & _ & Hlt & Hbest & st'' & [= <-] & Hnew)].
      * intros tr' (vals & Hvals & Hdesc). exists vals.
        rewrite best_checkpoints_app, Hnone, app_nil_l.
        split; [done|]. by rewrite <-(Hsame st').
      * intros tr' (vals & Hvals & Hdesc).
        exists (((λ _, total_loss res) <$> best_save_items exp_const) ++ vals).
        split.
        -- rewrite best_checkpoints_app, Hbest, !fmap_app, Hvals.
           f_equal. rewrite <-!list_fmap_compose. done.
        -- apply descends_constant_app; [by apply Qclt_le_weak|].
           by rewrite <-Hnew.
Qed.

End BestCheckpoints.

(** The small run writes two rounds of 'best' checkpoints, with losses 10
    and then 9. *)
Example best_checkpoints_of_toy_run :
  (λ c, (ckpt_step c, this <$> ckpt_val_loss c,
         this (ckpt_prev_best_val_loss c)))
  <$> best_checkpoints toy_exp_const
        (run (train_model toy_model toy_dataloaders toy_exp_const)).1
  = [(0%Z, Some (10 # 1)%Q, (10000 # 1)%Q); (0%Z, Some (10 # 1)%Q, (10000 # 1)%Q);
     (0%Z, Some (10 # 1)%Q, (10000 # 1)%Q); (1%Z, Some (9 # 1)%Q, (10 # 1)%Q);
     (1%Z, Some (9 # 1)%Q, (10 # 1)%Q); (1%Z, Some (9 # 1)%Q, (10 # 1)%Q)].
Proof. vm_compute. reflexivity. Qed.

Example checkpoint_paths_of_toy_run :
  (checkpoints
     (run (train_model toy_model toy_dataloaders toy_exp_const)).1).*2
  = ["models/object_encoder_0"; "models/self_sup_criterion_0";
     "models/lang_sup_criterion_0"; "models/best_object_encoder";
     "models/best_self_sup_criterion"; "models/best_lang_sup_criterion";
     "models/best_object_encoder"; "models/best_self_sup_criterion";
     "models/best_lang_sup_criterion"].
Proof. vm_compute. reflexivity. Qed.

(** ** The backward pass *)

Section Backward.
Context `{Network}.

(** What a reading of the trace sees of an iteration when it ignores
    logging, saving and validation. *)
Lemma omap_iteration_training {X} (f : event → option X)
    model_const dataloaders exp_const opt epoch it data st g :
  (∀ name value s, f (AddScalar name value s) = None) →
  (∀ e i s items, f (PrintLog e i s items) = None) →
  (∀ s, f (Print s) = None) →
  (∀ r, f (PrintVal r) = None) →
  f SetEvalMode = None →
  (∀ d, f (ForwardPass false false d) = None) →
  (∀ obj path, f (TorchSave obj path) = None) →
  omap f (train_iteration model_const dataloaders exp_const opt
            epoch it data st g).1
  = omap f (backward_events exp_const data st g).
Proof.
  intros Hs Hl Hp Hv Hm Hf Ht.
  iteration_cases;
    try (rewrite !omap_app, (eval_trace_quiet f _ _ _ _ _ _ _ Hev) by done);
    rewrite ?omap_app;
    rewrite ?omap_log_events, ?omap_validation_log_events,
      ?omap_if_periodic_save_events by done;
    cbn [omap list_omap]; rewrite ?Hp;
    rewrite ?omap_best_save_events by done;
    by rewrite ?app_nil_r.
Qed.

(** C3. An iteration calls [backward] exactly once, on the weighted sum of
    its three loss terms; over a whole run there are as many backward
    passes as iterations begun. *)
Theorem single_backward_on_weighted_loss :
  (∀ model_const dataloaders exp_const opt epoch it
     (data : Batch Annotations) st g,
     let l := forward_pass exp_const true (cur_weights st) data in
     backward_losses
       (train_iteration model_const dataloaders exp_const opt
          epoch it data st g).1
     = [self_sup_loss_wt exp_const * self_sup_loss l
        + lang_sup_loss_wt exp_const * lang_sup_loss l
        + neg_noun_loss_wt exp_const * neg_noun_loss l]) ∧
  (∀ model dataloaders exp_const g,
     let tr := (train_model model dataloaders exp_const g).1 in
     length (backward_losses tr) = iterations_started tr).
Proof.
  split.
  - intros. unfold backward_losses. by rewrite omap_iteration_training.
  - intros model dataloaders exp_const g. cbv zeta.
    apply (train_model_trace_ind
             (λ _ tr, length (backward_losses tr) = iterations_started tr)).
    + done.
    + intros opt st epoch it data. cbv zeta.
      assert (length (backward_losses
                (train_iteration (const model) dataloaders exp_const opt
                   epoch it data st g).1) = 1%nat) as Hb.
      { unfold backward_losses. by rewrite omap_iteration_training. }
      assert (iterations_started
                (train_iteration (const model) dataloaders exp_const opt
                   epoch it data st g).1 = 1%nat) as Hi.
      { unfold iterations_started. by rewrite omap_iteration_training. }
      destruct (train_iteration _ _ _ _ _ _ _ _ g) as [tr [e|st']];
        cbn [fst snd] in *; [congruence|].
      intros tr' Htr'. unfold backward_losses, iterations_started in *.
      rewrite !omap_app, !length_app. congruence.
Qed.

End Backward.

(** ** When checkpoints are written *)

Section CheckpointCadence.
Context `{Network}.

Lemma best_save_items_nonempty exp_const : best_save_items exp_const ≠ [].
Proof. done. Qed.

Lemma periodic_save_items_nonempty exp_const :
  periodic_save_items exp_const ≠ [].
Proof. done. Qed.

(** C7. With non-zero intervals, an iteration writes periodic checkpoints
    exactly when its step is a multiple of [model_save_step], and 'best'
    checkpoints exactly when its step is a multiple of [val_step] and the
    total loss of the validation pass it then runs is strictly below the
    best loss so far.  Over a whole run, every periodic checkpoint carries
    a step that is a multiple of [model_save_step], and every 'best'
    checkpoint a step that is a multiple of [val_step] and a loss strictly
    below the best loss it replaced. *)
Theorem checkpoints_at_intervals_and_improvements
    (model : TrainedModel) (dataloaders : DataLoaders)
    (exp_const : ExpConst) (opt : Optimizer) (epoch it : nat)
    (data : Batch Annotations) (st : LoopState) (g : bool) :
  log_step exp_const ≠ 0%Z →
  model_save_step exp_const ≠ 0%Z →
  val_step exp_const ≠ 0%Z →
  let tr := (train_iteration (const model) dataloaders exp_const opt
               epoch it data st g).1 in
  let w := optimizer_update opt exp_const (cur_weights st) data in
  let ev := eval_model {| const := const model; weights := w |}
              (val dataloaders (val_passes st)) exp_const (step st) false in
  let run := (train_model model dataloaders exp_const g).1 in
  (periodic_checkpoints exp_const tr ≠ []
   ↔ (step st `mod` model_save_step exp_const = 0)%Z) ∧
  (best_checkpoints exp_const tr ≠ []
   ↔ (step st `mod` val_step exp_const = 0)%Z ∧
     ∃ res, ev.2 = inr res ∧ total_loss res < best_val_loss st) ∧
  Forall (λ c, (ckpt_step c `mod` model_save_step exp_const = 0)%Z)
    (periodic_checkpoints exp_const run) ∧
  Forall (λ c, (ckpt_step c `mod` val_step exp_const = 0)%Z ∧
               ∃ v, ckpt_val_loss c = Some v ∧
                    v < ckpt_prev_best_val_loss c)
    (best_checkpoints exp_const run).
Proof.
  intros Hlog Hsave Hval. cbv zeta. split_and!.
  - rewrite periodic_checkpoints_iteration. case_decide as Hc.
    + split; [by intros _; apply Hc|]. intros _.
      intros Hnil%fmap_nil_inv. by apply periodic_save_items_nonempty in Hnil.
    + split; [done|]. intros Hmod. by destruct Hc.
  - pose proof (best_checkpoints_iteration (const model) dataloaders
                  exp_const opt epoch it data st g) as Hit.
    cbv zeta in Hit.
    destruct Hit as [(-> & _ & Hno)
                    |(res & _ & _ & _ & Hmod & Hres & Hlt & -> & _)].
    + split; [done|]. intros (Hmod & res & Hres & Hlt).
      destruct Hno. split_and!; eauto.
    + split; [eauto|]. intros _.
      intros Hnil%fmap_nil_inv. by apply best_save_items_nonempty in Hnil.
  - apply (train_model_trace_ind
             (λ _ tr,
                Forall (λ c, (ckpt_step c `mod` model_save_step exp_const
                              = 0)%Z)
                  (periodic_checkpoints exp_const tr))).
    + intros _. constructor.
    + intros opt' st' epoch' it' data'. cbv zeta.
      pose proof (periodic_checkpoints_iteration (const model) dataloaders
                    exp_const opt' epoch' it' data' st' g) as Hit.
      assert (Forall (λ c, (ckpt_step c `mod` model_save_step exp_const
                            = 0)%Z)
                (periodic_checkpoints exp_const
                   (train_iteration (const model) dataloaders exp_const
                      opt' epoch' it' data' st' g).1)) as Hall.
      { rewrite Hit. case_decide as Hc; [|constructor].
        apply Forall_fmap, Forall_forall. intros item _. apply Hc. }
      destruct (train_iteration _ _ _ _ _ _ _ _ g) as [tr [e|st'']];
        cbn [fst snd] in *; [done|].
      intros tr' Htr'. rewrite periodic_checkpoints_app.
      by apply Forall_app.
  - apply (train_model_trace_ind
             (λ _ tr,
                Forall (λ c, (ckpt_step c `mod` val_step exp_const = 0)%Z ∧
                             ∃ v, ckpt_val_loss c = Some v ∧
                                  v < ckpt_prev_best_val_loss c)
                  (best_checkpoints exp_const tr))).
    + intros _. constructor.
    + intros opt' st' epoch' it' data'. cbv zeta.
      pose proof (best_checkpoints_iteration (const model) dataloaders
                    exp_const opt' epoch' it' data' st' g) as Hit.
      cbv zeta in Hit.
      assert (Forall (λ c, (ckpt_step c `mod` val_step exp_const = 0)%Z ∧
                           ∃ v, ckpt_val_loss c = Some v ∧
                                v < ckpt_prev_best_val_loss c)
                (best_checkpoints exp_const
                   (train_iteration (const model) dataloaders exp_const
                      opt' epoch' it' data' st' g).1)) as Hall.
      { destruct Hit as [(-> & _)
                        |(res & _ & _ & _ & Hmod & _ & Hlt & -> & _)];
          [constructor|].
        apply Forall_fmap, Forall_forall. intros item _. simpl. eauto. }
      destruct (train_iteration _ _ _ _ _ _ _ _ g) as [tr [e|st'']];
        cbn [fst snd] in *; [done|].
      intros tr' Htr'. rewrite best_checkpoints_app.
      by apply Forall_app.
Qed.

End CheckpointCadence.

Lemma checkpoints_at_intervals_and_improvements_witness :
  let st := @initial_state toy_network toy_model in
  let tr := (train_iteration (const toy_model) toy_dataloaders toy_exp_const
               (SGD 1 0) 0 0 (toy_batch : Batch (@Annotations toy_network))
               st true).1 in
  let w := @optimizer_update toy_network (SGD 1 0) toy_exp_const
             (cur_weights st) toy_batch in
  let ev := eval_model {| const := const toy_model; weights := w |}
              (val toy_dataloaders (val_passes st)) toy_exp_const (step st)
              false in
  let run := (train_model toy_model toy_dataloaders toy_exp_const true).1 in
  (periodic_checkpoints toy_exp_const tr ≠ []
   ↔ (step st `mod` model_save_step toy_exp_const = 0)%Z) ∧
  (best_checkpoints toy_exp_const tr ≠ []
   ↔ (step st `mod` val_step toy_exp_const = 0)%Z ∧
     ∃ res, ev.2 = inr res ∧ total_loss res < best_val_loss st) ∧
  Forall (λ c, (ckpt_step c `mod` model_save_step toy_exp_const = 0)%Z)
    (periodic_checkpoints toy_exp_const run) ∧
  Forall (λ c, (ckpt_step c `mod` val_step toy_exp_const = 0)%Z ∧
               ∃ v, ckpt_val_loss c = Some v ∧
                    v < ckpt_prev_best_val_loss c)
    (best_checkpoints toy_exp_const run).
Proof.
  apply (checkpoints_at_intervals_and_improvements
           toy_model toy_dataloaders toy_exp_const (SGD 1 0) 0 0
           (toy_batch : Batch (@Annotations toy_network))
           (@initial_state toy_network toy_model) true);
    simpl; lia.
Defined.

(** ** What a checkpoint contains *)

Section CheckpointContents.
Context `{Network}.

Lemma checkpoints_periodic_save_events exp_const w step best :
  checkpoints (periodic_save_events exp_const w step best)
  = (λ item : string * Component,
       ({| ckpt_state_dict := state_dict w item.2;
           ckpt_step := step;
           ckpt_val_loss := None;
           ckpt_prev_best_val_loss := best |},
        os_path_join (model_dir exp_const) (item.1 +:+ "_" +:+ pretty step)))
    <$> periodic_save_items exp_const.
Proof. by apply omap_fmap_Some. Qed.

Lemma checkpoints_best_save_events exp_const w step val_loss best :
  checkpoints (best_save_events exp_const w step val_loss best)
  = (λ item : string * Component,
       ({| ckpt_state_dict := state_dict w item.2;
           ckpt_step := step;
           ckpt_val_loss := Some val_loss;
           ckpt_prev_best_val_loss := best |},
        os_path_join (model_dir exp_const) item.1))
    <$> best_save_items exp_const.
Proof. by apply omap_fmap_Some. Qed.

Lemma checkpoints_iteration model_const dataloaders exp_const opt
    epoch it data st g :
  let tr := (train_iteration model_const dataloaders exp_const opt
               epoch it data st g).1 in
  let w := optimizer_update opt exp_const (cur_weights st) data in
  let ev := eval_model {| const := model_const; weights := w |}
              (val dataloaders (val_passes st)) exp_const (step st) false in
  Forall (λ cp,
            periodic_shape exp_const w st cp ∨
            ∃ res, ev.2 = inr res ∧
                   best_shape exp_const w st (total_loss res) cp)
    (checkpoints tr).
Proof.
  cbv zeta.
  assert (∀ b : bool,
    Forall (λ cp,
              periodic_shape exp_const
                (optimizer_update opt exp_const (cur_weights st) data) st cp ∨
              ∃ res,
                (eval_model
                   {| const := model_const;
                      weights := optimizer_update opt exp_const
                                   (cur_weights st) data |}
                   (val dataloaders (val_passes st)) exp_const (step st)
                   false).2 = inr res ∧
                best_shape exp_const
                  (optimizer_update opt exp_const (cur_weights st) data)
                  st (total_loss res) cp)
      (checkpoints
         (if b then periodic_save_events exp_const
                     (optimizer_update opt exp_const (cur_weights st) data)
                     (step st) (best_val_loss st)
          else []))) as Hperiodic.
  { intros [|]; [|constructor].
    rewrite checkpoints_periodic_save_events.
    apply Forall_fmap, Forall_forall. intros item Hitem. left.
    by exists item. }
  iteration_cases; unfold checkpoints at 1;
    try (rewrite !omap_app, (eval_trace_quiet _ _ _ _ _ _ _ _ Hev) by done);
    rewrite ?omap_app;
    rewrite ?omap_log_events, ?omap_validation_log_events,
      ?omap_backward_events by done;
    cbn [omap list_omap]; rewrite ?app_nil_l, ?app_nil_r;
    try (by constructor);
    fold checkpoints; try apply Forall_app_2; try apply Hperiodic.
  pose proof (checkpoints_best_save_events exp_const
    (optimizer_update opt exp_const (cur_weights st) data)
    (step st) (total_loss res) (best_val_loss st)) as Hbest.
  unfold checkpoints in Hbest. rewrite Hbest.
  apply Forall_fmap, Forall_forall. intros item Hitem. right.
  exists res. split; [done|]. by exists item.
Qed.

(** C5, as amended. Every dictionary handed to [torch.save] goes to a file
    of the model directory and has the four entries [state_dict], [step],
    [val_loss] and [prev_best_val_loss]: the state dict of one sub-model
    after the update, the step of the iteration, and the best validation
    loss the iteration started with.  In a 'best' checkpoint [val_loss] is
    the total loss of the validation pass just run; in a periodic
    checkpoint it is [None]. *)
Theorem checkpoint_contents (model : TrainedModel)
    (dataloaders : DataLoaders) (exp_const : ExpConst) (opt : Optimizer)
    (epoch it : nat) (data : Batch Annotations) (st : LoopState) (g : bool) :
  let tr := (train_iteration (const model) dataloaders exp_const opt
               epoch it data st g).1 in
  let w := optimizer_update opt exp_const (cur_weights st) data in
  let ev := eval_model {| const := const model; weights := w |}
              (val dataloaders (val_passes st)) exp_const (step st) false in
  let run := (train_model model dataloaders exp_const g).1 in
  Forall (λ cp,
            periodic_shape exp_const w st cp ∨
            ∃ res, ev.2 = inr res ∧
                   best_shape exp_const w st (total_loss res) cp)
    (checkpoints tr) ∧
  Forall (λ cp : Checkpoint * string,
            (∃ name, cp.2 = os_path_join (model_dir exp_const) name) ∧
            if is_best_path exp_const cp.2
            then is_Some (ckpt_val_loss cp.1)
            else ckpt_val_loss cp.1 = None)
    (checkpoints run).
Proof.
  cbv zeta. split; [apply checkpoints_iteration|].
  apply (train_model_trace_ind
           (λ _ tr,
              Forall (λ cp : Checkpoint * string,
                        (∃ name, cp.2 = os_path_join (model_dir exp_const) name)
                        ∧ if is_best_path exp_const cp.2
                          then is_Some (ckpt_val_loss cp.1)
                          else ckpt_val_loss cp.1 = None)
                (checkpoints tr))).
  - intros _. constructor.
  - intros opt' st' epoch' it' data'. cbv zeta.
    pose proof (checkpoints_iteration (const model) dataloaders exp_const
                  opt' epoch' it' data' st' g) as Hit.
    cbv zeta in Hit.
    eapply Forall_impl in Hit.
    2:{ intros cp Hcp.
        instantiate (1 := λ cp : Checkpoint * string,
          (∃ name, cp.2 = os_path_join (model_dir exp_const) name)
          ∧ if is_best_path exp_const cp.2
            then is_Some (ckpt_val_loss cp.1)
            else ckpt_val_loss cp.1 = None).
        destruct Hcp as [(item & Hitem & Hpath & Hobj)
                        |(res & _ & item & Hitem & Hpath & Hobj)];
          (split; [by eexists|]); rewrite Hpath, Hobj.
        - by rewrite periodic_path_not_best.
        - rewrite best_path_is_best by done. by eexists. }
    destruct (train_iteration _ _ _ _ _ _ _ _ g) as [tr [e|st'']];
      cbn [fst snd] in *; [done|].
    intros tr' Htr'. unfold checkpoints in *. rewrite omap_app.
    by apply Forall_app.
Qed.

End CheckpointContents.

(** C5, as stated, fails: the periodic checkpoint written at step 0 of the
    small run records no validation loss. *)
Lemma periodic_checkpoint_without_val_loss :
  ¬ Forall (λ cp : Checkpoint * string, is_Some (ckpt_val_loss cp.1))
      (checkpoints
         (run (train_model toy_model toy_dataloaders toy_exp_const)).1).
Proof.
  intros Hall.
  assert (∃ cp rest,
    checkpoints (run (train_model toy_model toy_dataloaders toy_exp_const)).1
    = cp :: rest ∧ ckpt_val_loss cp.1 = None) as (cp & rest & Heq & Hnone).
  { vm_compute. eexists _, _. split; reflexivity. }
  rewrite Heq in Hall. apply Forall_cons in Hall as [[v Hv] _]. congruence.
Qed.

(** ** Validation *)

Section Validation.
Context `{Network}.

(** C6. [eval_model] processes a prefix of the loader (all of it without
    [num_val_samples], otherwise the shortest prefix that reaches that
    many samples), and with [n] the number of samples processed it
    returns, for each loss term, the sum over the processed batches of the
    batch loss times the batch size, divided by [n], and as [total_loss]
    the weighted sum of the three averages; with no sample processed the
    division raises.  The validation passes that [train_model] starts run
    with gradients disabled. *)
Theorem eval_model_weighted_average (model : TrainedModel)
    (dataloader : list (Batch Annotations)) (exp_const : ExpConst)
    (step : Z) (g : bool) :
  let r := eval_model model dataloader exp_const step g in
  let batches := eval_batches r.1 in
  let n := samples batches in
  let avg term :=
    weighted_sum exp_const (weights model) term batches / Qc_of_Z n in
  (∃ rest, dataloader = batches ++ rest ∧
     match num_val_samples exp_const with
     | None => rest = []
     | Some k =>
         (rest ≠ [] → (k ≤ n)%Z) ∧
         (∀ p d q, batches = p ++ d :: q → (samples p < k)%Z)
     end) ∧
  (n ≠ 0%Z →
   r.2 = inr {| res_self_sup_loss := avg self_sup_loss;
                res_lang_sup_loss := avg lang_sup_loss;
                res_neg_noun_loss := avg neg_noun_loss;
                total_loss :=
                  self_sup_loss_wt exp_const * avg self_sup_loss
                  + lang_sup_loss_wt exp_const * avg lang_sup_loss
                  + neg_noun_loss_wt exp_const * avg neg_noun_loss |}) ∧
  (n = 0%Z → r.2 = inl ZeroDivisionError) ∧
  (∀ model_const dataloaders opt epoch it data st g',
     eval_batches_with_grad
       (train_iteration model_const dataloaders exp_const opt
          epoch it data st g').1 = []) ∧
  (∀ model' dataloaders g',
     eval_batches_with_grad
       (train_model model' dataloaders exp_const g').1 = []).
Proof.
  cbv zeta. rewrite eval_model_run. cbv zeta. cbn [fst snd].
  rewrite eval_batches_forward. split_and!.
  - destruct (consumed_prefix exp_const 0 dataloader) as (rest & Hrest & Hcut).
    exists rest. split; [done|].
    destruct (num_val_samples exp_const); [|done].
    destruct Hcut as [Hcut1 Hcut2]. split.
    + intros Hne. specialize (Hcut1 Hne). lia.
    + intros p d q Heq. specialize (Hcut2 p d q Heq). lia.
  - intros Hn. by rewrite decide_False.
  - intros Hn. by rewrite decide_True.
  - intros. unfold eval_batches_with_grad.
    by rewrite omap_iteration_training.
  - intros model' dataloaders g'.
    apply (train_model_trace_ind (λ _ tr, eval_batches_with_grad tr = [])).
    + done.
    + intros opt st epoch it data. cbv zeta.
      assert (eval_batches_with_grad
                (train_iteration (const model') dataloaders exp_const opt
                   epoch it data st g').1 = []) as Hit.
      { unfold eval_batches_with_grad. by rewrite omap_iteration_training. }
      destruct (train_iteration _ _ _ _ _ _ _ _ g') as [tr [e|st']];
        cbn [fst snd] in *; [done|].
      intros tr' Htr'. unfold eval_batches_with_grad in *.
      by rewrite omap_app, Hit, Htr'.
Qed.

End Validation.

Lemma eval_model_weighted_average_witness :
  let r := @eval_model toy_network toy_model (val toy_dataloaders 0)
             toy_exp_const 0 true in
  let batches := eval_batches r.1 in
  let n := samples batches in
  let avg term :=
    weighted_sum toy_exp_const (weights toy_model) term batches / Qc_of_Z n in
  n = 2%Z ∧
  r.2 = inr {| res_self_sup_loss := avg self_sup_loss;
               res_lang_sup_loss := avg lang_sup_loss;
               res_neg_noun_loss := avg neg_noun_loss;
               total_loss :=
                 self_sup_loss_wt toy_exp_const * avg self_sup_loss
                 + lang_sup_loss_wt toy_exp_const * avg lang_sup_loss
                 + neg_noun_loss_wt toy_exp_const * avg neg_noun_loss |}.
Proof.
  cbv zeta. split; [reflexivity|].
  apply (eval_model_weighted_average toy_model (val toy_dataloaders 0)
           toy_exp_const 0 true).
  vm_compute. discriminate.
Defined.

(** ** The first iteration *)

Section FirstIteration.
Context `{Network}.

Lemma bind_trace_prefix {X Y} (m : M X) (k : X → M Y) (g : bool) :
  ∃ later, ((m ≫= k) g).1 = (m g).1 ++ later.
Proof.
  destruct (m g) as [tr [e|a]] eqn:Hm.
  - exists []. erewrite bind_raises by exact Hm. by rewrite app_nil_r.
  - eexists. by erewrite bind_returns by exact Hm.
Qed.

(** A run that gets to iterate starts with the iteration of the first
    batch of the first epoch, from the initial state. *)
Lemma train_model_first_iteration model dataloaders exp_const g opt
    data rest :
  (make_optimizer exp_const g).2 = inr opt →
  (0 < num_epochs exp_const)%Z →
  train dataloaders 0 = data :: rest →
  ∃ later,
    (train_model model dataloaders exp_const g).1
    = (train_iteration (const model) dataloaders exp_const opt 0 0 data
         (initial_state model) g).1 ++ later.
Proof.
  intros Hopt Hepochs Htrain. rewrite train_model_trace, Hopt.
  destruct (Z.to_nat (num_epochs exp_const)) as [|n] eqn:Hn; [lia|].
  cbn [train_epochs]. rewrite Htrain. cbn [train_epoch].
  destruct (bind_trace_prefix
    (train_iteration (const model) dataloaders exp_const opt 0 0 data
       (initial_state model) ≫= λ st,
     train_epoch (const model) dataloaders exp_const opt 0 1 rest st)
    (λ st, train_epochs (const model) dataloaders exp_const opt n 1 st) g)
    as (later1 & ->).
  destruct (bind_trace_prefix
    (train_iteration (const model) dataloaders exp_const opt 0 0 data
       (initial_state model))
    (λ st, train_epoch (const model) dataloaders exp_const opt 0 1 rest st) g)
    as (later2 & ->).
  exists (later2 ++ later1). by rewrite app_assoc.
Qed.

Lemma scalars_app (tr1 tr2 : list event) :
  scalars (tr1 ++ tr2) = scalars tr1 ++ scalars tr2.
Proof. apply omap_app. Qed.

Lemma scalars_log_events exp_const epoch it step l loss :
  log_step exp_const ≠ 0%Z →
  (step `mod` log_step exp_const = 0)%Z →
  scalars (log_events exp_const epoch it step l loss)
  = [("Self_Sup_Loss/Train", self_sup_loss l, step);
     ("Lang_Sup_Loss/Train", lang_sup_loss l, step);
     ("Neg_Noun_Loss/Train", neg_noun_loss l, step);
     ("Loss/Train", loss, step);
     ("Lr", lr exp_const, step)].
Proof.
  intros Hlog Hmod. unfold log_events. rewrite bool_decide_true by done.
  by case_bool_decide.
Qed.

Lemma validation_passes_eval model dataloader exp_const step g :
  validation_passes (eval_model model dataloader exp_const step g).1 = 1%nat.
Proof.
  unfold validation_passes. rewrite eval_model_run. cbv zeta.
  cbn [fst omap list_omap length]. by rewrite omap_fmap_None.
Qed.

(** The side effects of an iteration whose step is a multiple of the three
    intervals. *)
Lemma iteration_at_multiple model_const dataloaders exp_const opt epoch it
    data st g :
  log_step exp_const ≠ 0%Z → model_save_step exp_const ≠ 0%Z →
  val_step exp_const ≠ 0%Z →
  (step st `mod` log_step exp_const = 0)%Z →
  (step st `mod` model_save_step exp_const = 0)%Z →
  (step st `mod` val_step exp_const = 0)%Z →
  let tr := (train_iteration model_const dataloaders exp_const opt
               epoch it data st g).1 in
  let l := forward_pass exp_const true (cur_weights st) data in
  ("Loss/Train",
   weighted_loss exp_const
     (self_sup_loss l) (lang_sup_loss l) (neg_noun_loss l),
   step st) ∈ scalars tr ∧
  periodic_checkpoints exp_const tr ≠ [] ∧
  validation_passes tr = 1%nat.
Proof.
  intros Hlog Hsave Hval Hmlog Hmsave Hmval. cbv zeta. split_and!.
  - rewrite train_iteration_run. cbv zeta.
    rewrite !decide_False by done.
    assert (∀ tr' r',
      ("Loss/Train",
       weighted_loss exp_const
         (self_sup_loss (forward_pass exp_const true (cur_weights st) data))
         (lang_sup_loss (forward_pass exp_const true (cur_weights st) data))
         (neg_noun_loss (forward_pass exp_const true (cur_weights st) data)),
       step st)
      ∈ scalars
          ((backward_events exp_const data st g
            ++ log_events exp_const epoch it (step st)
                 (forward_pass exp_const true (cur_weights st) data)
                 (weighted_loss exp_const
                    (self_sup_loss
                       (forward_pass exp_const true (cur_weights st) data))
                    (lang_sup_loss
                       (forward_pass exp_const true (cur_weights st) data))
                    (neg_noun_loss
                       (forward_pass exp_const true (cur_weights st) data)))
            ++ tr', r') : list event * (exn + LoopState)).1) as Hin.
    { intros tr' r'. cbn [fst]. rewrite !scalars_app.
      apply elem_of_app. right. apply elem_of_app. left.
      rewrite scalars_log_events by done.
      do 3 apply list_elem_of_further. apply list_elem_of_here. }
    case_bool_decide; [|apply Hin].
    destruct (eval_model _ _ _ _ false).2 as [e|res]; [apply Hin|].
    case_bool_decide; apply Hin.
  - rewrite periodic_checkpoints_iteration, decide_True by done.
    intros Hnil%fmap_nil_inv. by apply periodic_save_items_nonempty in Hnil.
  - pose proof (validation_passes_eval
      {| const := model_const;
         weights := optimizer_update opt exp_const (cur_weights st) data |}
      (val dataloaders (val_passes st)) exp_const (step st) false) as Hev.
    rewrite train_iteration_run. cbv zeta.
    rewrite !decide_False by done. rewrite (bool_decide_true _ Hmval).
    destruct (eval_model _ _ _ _ false) as [etr [e|res]];
      cbn [fst snd] in *; [|case_bool_decide]; cbn [fst];
      unfold validation_passes in *; rewrite !omap_app, !length_app, Hev;
      rewrite ?omap_log_events, ?omap_validation_log_events,
        ?omap_if_periodic_save_events, ?omap_backward_events by done;
      cbn [omap list_omap]; rewrite ?omap_best_save_events by done; done.
Qed.

(** C10. A run that gets to iterate begins with the iteration of the first
    batch from the initial state, whose step is 0 on a fresh run
    ([model_num = -1]) and [model_num] otherwise.  On a fresh run with
    non-zero intervals that first iteration logs its scalars at step 0,
    writes the periodic checkpoints of step 0 and runs one validation
    pass. *)
Theorem fresh_run_first_iteration (model : TrainedModel)
    (dataloaders : DataLoaders) (exp_const : ExpConst) (g : bool)
    (data : Batch Annotations) (rest : list (Batch Annotations)) :
  optimizer exp_const = "SGD" ∨ optimizer exp_const = "Adam" →
  (0 < num_epochs exp_const)%Z →
  train dataloaders 0 = data :: rest →
  log_step exp_const ≠ 0%Z →
  model_save_step exp_const ≠ 0%Z →
  val_step exp_const ≠ 0%Z →
  ∃ opt first later,
    (make_optimizer exp_const g).2 = inr opt ∧
    first = (train_iteration (const model) dataloaders exp_const opt
               0 0 data (initial_state model) g).1 ∧
    (train_model model dataloaders exp_const g).1 = first ++ later ∧
    iterations_started first = 1%nat ∧
    (model_num (const model) = (-1)%Z →
     step (initial_state model) = 0%Z ∧
     (∃ loss, ("Loss/Train", loss, 0%Z) ∈ scalars first) ∧
     periodic_checkpoints exp_const first ≠ [] ∧
     Forall (λ c, ckpt_step c = 0%Z) (periodic_checkpoints exp_const first) ∧
     validation_passes first = 1%nat) ∧
    (model_num (const model) ≠ (-1)%Z →
     step (initial_state model) = model_num (const model) ∧
     Forall (λ cp : Checkpoint * string,
               ckpt_step cp.1 = model_num (const model))
       (checkpoints first)).
Proof.
  intros Hopt Hepochs Htrain Hlog Hsave Hval.
  assert (∃ opt, (make_optimizer exp_const g).2 = inr opt) as [opt Hmk].
  { rewrite make_optimizer_run.
    destruct Hopt as [-> | ->]; repeat case_bool_decide; by eauto. }
  destruct (train_model_first_iteration model dataloaders exp_const g opt
              data rest Hmk Hepochs Htrain) as [later Hrun].
  exists opt, (train_iteration (const model) dataloaders exp_const opt
                 0 0 data (initial_state model) g).1, later.
  split_and!; [done|reflexivity|done|..].
  - unfold iterations_started. by rewrite omap_iteration_training.
  - intros Hfresh.
    assert (step (initial_state model) = 0%Z) as Hstep.
    { unfold initial_state, initial_step. cbn [step].
      by rewrite decide_True. }
    destruct (iteration_at_multiple (const model) dataloaders exp_const
                opt 0 0 data (initial_state model) g)
      as (Hscalar & Hperiodic & Hpasses);
      [done|done|done|by rewrite Hstep..|].
    rewrite Hstep in Hscalar. split_and!; [done|by eexists|done| |done].
    rewrite periodic_checkpoints_iteration. case_decide; [|constructor].
    apply Forall_fmap, Forall_forall. by intros item _.
  - intros Hresumed.
    assert (step (initial_state model) = model_num (const model)) as Hstep.
    { unfold initial_state, initial_step. cbn [step].
      by rewrite decide_False. }
    split; [done|].
    eapply Forall_impl; [apply checkpoints_iteration|].
    intros cp [(item & _ & _ & ->)|(res & _ & item & _ & _ & ->)];
      by rewrite <-Hstep.
Qed.

End FirstIteration.

Lemma fresh_run_first_iteration_witness :
  ∃ opt (first later : list (@event toy_network)),
    (@make_optimizer toy_network toy_exp_const true).2 = inr opt ∧
    first = (train_iteration (const toy_model) toy_dataloaders toy_exp_const
               opt 0 0 (toy_batch : Batch (@Annotations toy_network))
               (@initial_state toy_network toy_model) true).1 ∧
    (train_model toy_model toy_dataloaders toy_exp_const true).1
    = first ++ later ∧
    iterations_started first = 1%nat ∧
    (model_num (const toy_model) = (-1)%Z →
     step (@initial_state toy_network toy_model) = 0%Z ∧
     (∃ loss, ("Loss/Train", loss, 0%Z) ∈ scalars first) ∧
     periodic_checkpoints toy_exp_const first ≠ [] ∧
     Forall (λ c, ckpt_step c = 0%Z)
       (periodic_checkpoints toy_exp_const first) ∧
     validation_passes first = 1%nat) ∧
    (model_num (const toy_model) ≠ (-1)%Z →
     step (@initial_state toy_network toy_model)
     = model_num (const toy_model) ∧
     Forall (λ cp : Checkpoint * string,
               ckpt_step cp.1 = model_num (const toy_model))
       (checkpoints first)).
Proof.
  eapply (fresh_run_first_iteration toy_model toy_dataloaders toy_exp_const
            true);
    [by left|reflexivity|reflexivity|simpl; lia..].
Defined.

(** ** Unsupported configurations *)

Section FailFast.
Context `{Network}.

Lemma select_dataset_run exp_const g :
  select_dataset exp_const g =
  if bool_decide (dataset exp_const = "coco") then ([], inr CocoDataset)
  else if bool_decide (dataset exp_const = "flickr") then
    ([], inr FlickrDataset)
  else ([], inl (NotImplementedError
                   (dataset exp_const +:+ " not implemented"))).
Proof. unfold select_dataset. by repeat case_bool_decide. Qed.

Lemma train_model_rejects_optimizer model dataloaders exp_const g :
  optimizer exp_const ≠ "SGD" → optimizer exp_const ≠ "Adam" →
  train_model model dataloaders exp_const g
  = ([], inl (AssertionError "optimizer not implemented")).
Proof.
  intros Hsgd Hadam. unfold train_model.
  erewrite bind_raises; [done|].
  by rewrite make_optimizer_run, !bool_decide_false.
Qed.

(** C4. An optimiser other than 'SGD' and 'Adam' makes [train_model] raise
    an assertion error before it emits anything; a dataset other than
    'coco' and 'flickr' makes [main] raise [NotImplementedError] after its
    two progress messages, and with a known dataset and an unknown
    optimiser [main] ends in the assertion error at the same point: no
    iteration is started and nothing catches the exception.  Supported
    values pass both checks. *)
Theorem unsupported_configuration_fails_fast (exp_const : ExpConst)
    (data_const : DataConsts) (model_const : ModelConst)
    (model : TrainedModel) (dataloaders : DataLoaders) (g : bool) :
  let setup := [Print "Creating network ..."; Print "Creating dataloader ..."]
  in
  (optimizer exp_const ≠ "SGD" → optimizer exp_const ≠ "Adam" →
   train_model model dataloaders exp_const g
   = ([], inl (AssertionError "optimizer not implemented"))) ∧
  (dataset exp_const ≠ "coco" → dataset exp_const ≠ "flickr" →
   main exp_const data_const model_const g
   = (setup,
      inl (NotImplementedError (dataset exp_const +:+ " not implemented")))) ∧
  (dataset exp_const = "coco" ∨ dataset exp_const = "flickr" →
   optimizer exp_const ≠ "SGD" → optimizer exp_const ≠ "Adam" →
   main exp_const data_const model_const g
   = (setup, inl (AssertionError "optimizer not implemented"))) ∧
  (optimizer exp_const = "SGD" ∨ optimizer exp_const = "Adam" →
   ∃ opt, make_optimizer exp_const g = ([], inr opt)) ∧
  (dataset exp_const = "coco" ∨ dataset exp_const = "flickr" →
   ∃ Dataset, select_dataset exp_const g = ([], inr Dataset)).
Proof.
  cbv zeta. split_and!.
  - apply train_model_rejects_optimizer.
  - intros Hcoco Hflickr. unfold main. rewrite !emit_then.
    erewrite bind_raises; [done|].
    by rewrite select_dataset_run, !bool_decide_false.
  - intros Hds Hsgd Hadam. unfold main. rewrite !emit_then.
    assert (∃ Dataset, select_dataset exp_const g = ([], inr Dataset))
      as [Dataset HDataset].
    { rewrite select_dataset_run.
      destruct Hds as [-> | ->]; repeat case_bool_decide; by eauto. }
    erewrite bind_returns by exact HDataset.
    by rewrite train_model_rejects_optimizer.
  - intros Hopt. rewrite make_optimizer_run.
    destruct Hopt as [-> | ->]; repeat case_bool_decide; by eauto.
  - intros Hds. rewrite select_dataset_run.
    destruct Hds as [-> | ->]; repeat case_bool_decide; by eauto.
Qed.

End FailFast.

Lemma unsupported_configuration_fails_fast_witness :
  @train_model toy_network toy_model toy_dataloaders toy_exp_const_rmsprop
    true
  = ([], inl (AssertionError "optimizer not implemented")) ∧
  @main toy_network toy_exp_const_vg toy_data_const {| model_num := -1 |} true
  = ([Print "Creating network ..."; Print "Creating dataloader ..."],
     inl (NotImplementedError "vg not implemented")) ∧
  @main toy_network toy_exp_const_rmsprop toy_data_const
    {| model_num := -1 |} true
  = ([Print "Creating network ..."; Print "Creating dataloader ..."],
     inl (AssertionError "optimizer not implemented")) ∧
  (∃ opt, @make_optimizer toy_network toy_exp_const true = ([], inr opt)) ∧
  (∃ Dataset, @select_dataset toy_network toy_exp_const true
              = ([], inr Dataset)).
Proof.
  split_and!.
  - by apply (unsupported_configuration_fails_fast toy_exp_const_rmsprop
                toy_data_const {| model_num := -1 |} toy_model
                toy_dataloaders true).
  - by apply (unsupported_configuration_fails_fast toy_exp_const_vg
                toy_data_const {| model_num := -1 |} toy_model
                toy_dataloaders true).
  - apply (unsupported_configuration_fails_fast toy_exp_const_rmsprop
             toy_data_const {| model_num := -1 |} toy_model
             toy_dataloaders true); [by right|done|done].
  - apply (unsupported_configuration_fails_fast toy_exp_const
             toy_data_const {| model_num := -1 |} toy_model
             toy_dataloaders true). by left.
  - apply (unsupported_configuration_fails_fast toy_exp_const
             toy_data_const {| model_num := -1 |} toy_model
             toy_dataloaders true). by left.
Defined.

(** * Further properties *)

(** ** More on pad and mask substitution *)

Section SubstitutionMore.
Import ObjectEncoder.

(** Two tensors of one shape that agree at every position are equal. *)
Lemma tensor_ext (B T D : nat) (x y : Tensor3) :
  has_shape3 B T D x → has_shape3 B T D y →
  (∀ b t, at2 x b t = at2 y b t) → x = y.
Proof.
  intros [Hx1 Hx2] [Hy1 Hy2] Hat.
  apply list_eq_same_length with B; [done|done|].
  intros b xrow yrow Hb Hxb Hyb.
  eapply Forall_lookup_1 in Hx2 as [Hxl _]; [|done].
  eapply Forall_lookup_1 in Hy2 as [Hyl _]; [|done].
  apply list_eq_same_length with T; [done|done|].
  intros t v v' Ht Hv Hv'.
  specialize (Hat b t). unfold at2 in Hat. rewrite Hxb, Hyb in Hat.
  simpl in Hat. congruence.
Qed.

(** X1. With only one of the two masks given, the positions whose bit is
    set hold the corresponding embedding and all others keep their feature
    vector; the embedding of the absent mask plays no part (it may have any
    length). *)
Theorem preprocess_one_mask (self : t) (B T D : nat)
    (x : Tensor3) (m : Mask) :
  has_shape3 B T D x → has_shape2 B T m →
  (length (mask_feat self) = D →
   ∃ out, preprocess_object_features self x (Some m) None = Some out ∧
     has_shape3 B T D out ∧
     ∀ b t v mb, at2 x b t = Some v → at2 m b t = Some mb →
       at2 out b t = Some (if mb then mask_feat self else v)) ∧
  (length (pad_feat self) = D →
   ∃ out, preprocess_object_features self x None (Some m) = Some out ∧
     has_shape3 B T D out ∧
     ∀ b t v pb, at2 x b t = Some v → at2 m b t = Some pb →
       at2 out b t = Some (if pb then pad_feat self else v)).
Proof.
  intros Hx Hm. split; intros Hfeat; unfold preprocess_object_features;
    simpl; rewrite (substitute_closed_form B T D) by done; simpl;
    (eexists; split_and!; [done|by apply substitute_shape|]);
    intros b t v mb Hv Hmb; by rewrite at2_zip_with, Hmb, Hv.
Qed.

Lemma preprocess_one_mask_witness :
  (∃ out, preprocess_object_features example_encoder example_features
            (Some example_object_mask) None = Some out ∧
     has_shape3 1 3 2 out ∧
     ∀ b t v mb, at2 example_features b t = Some v →
       at2 example_object_mask b t = Some mb →
       at2 out b t = Some (if mb then mask_feat example_encoder else v)) ∧
  (∃ out, preprocess_object_features example_encoder example_features
            None (Some example_object_mask) = Some out ∧
     has_shape3 1 3 2 out ∧
     ∀ b t v pb, at2 example_features b t = Some v →
       at2 example_object_mask b t = Some pb →
       at2 out b t = Some (if pb then pad_feat example_encoder else v)).
Proof.
  assert (has_shape3 1 3 2 example_features) as Hx
    by (split; [reflexivity|repeat constructor]).
  assert (has_shape2 1 3 example_object_mask) as Hm
    by (split; [reflexivity|repeat constructor]).
  destruct (preprocess_one_mask example_encoder 1 3 2 example_features
              example_object_mask Hx Hm) as [Hmask Hpad].
  split; [apply Hmask|apply Hpad]; reflexivity.
Defined.

(** X2. Substitution is idempotent: preprocessing the preprocessed tensor
    with the same masks changes nothing. *)
Theorem preprocess_idempotent (self : t) (B T D : nat)
    (x : Tensor3) (m p : Mask) :
  has_shape3 B T D x → has_shape2 B T m → has_shape2 B T p →
  length (mask_feat self) = D → length (pad_feat self) = D →
  ∃ pre,
    preprocess_object_features self x (Some m) (Some p) = Some pre ∧
    preprocess_object_features self pre (Some m) (Some p) = Some pre.
Proof.
  intros Hx Hm Hp Hmf Hpf.
  assert (has_shape3 B T D
            (zip_with (zip_with (choose (pad_feat self))) p
               (zip_with (zip_with (choose (mask_feat self))) m x))) as Hpre.
  { apply substitute_shape; [done| |done]. by apply substitute_shape. }
  eexists. split; [by apply (preprocess_closed_form self B T D)|].
  rewrite (preprocess_closed_form self B T D) by done. f_equal.
  apply (tensor_ext B T D); [|done|].
  { apply substitute_shape; [done| |done]. by apply substitute_shape. }
  intros b t. rewrite !at2_zip_with.
  by destruct (at2 p b t) as [[|]|], (at2 m b t) as [[|]|],
    (at2 x b t) as [v|].
Qed.

Lemma preprocess_idempotent_witness :
  ∃ pre,
    preprocess_object_features example_encoder example_features
      (Some example_object_mask) (Some example_pad_mask) = Some pre ∧
    preprocess_object_features example_encoder pre
      (Some example_object_mask) (Some example_pad_mask) = Some pre.
Proof.
  apply (preprocess_idempotent example_encoder 1 3 2); try reflexivity;
    (split; [reflexivity|repeat constructor]).
Defined.

(** X3. The features at masked or padded positions do not reach the
    output: two feature tensors that agree wherever both bits are clear
    are preprocessed to the same tensor. *)
Theorem preprocess_hides_masked_features (self : t) (B T D : nat)
    (x x' : Tensor3) (m p : Mask) :
  has_shape3 B T D x → has_shape3 B T D x' →
  has_shape2 B T m → has_shape2 B T p →
  length (mask_feat self) = D → length (pad_feat self) = D →
  (∀ b t, at2 m b t = Some false → at2 p b t = Some false →
          at2 x b t = at2 x' b t) →
  preprocess_object_features self x (Some m) (Some p)
  = preprocess_object_features self x' (Some m) (Some p).
Proof.
  intros Hx Hx' Hm Hp Hmf Hpf Hagree.
  rewrite !(preprocess_closed_form self B T D) by done. f_equal.
  apply (tensor_ext B T D).
  { apply substitute_shape; [done| |done]. by apply substitute_shape. }
  { apply substitute_shape; [done| |done]. by apply substitute_shape. }
  intros b t. rewrite !at2_zip_with.
  destruct (at2 p b t) as [pb|] eqn:Hpb; [|done]. simpl.
  destruct (at2 m b t) as [mb|] eqn:Hmb; [|done]. simpl.
  destruct (at2_defined B T D m x b t Hm Hx) as [v Hv]; [by eexists|].
  destruct (at2_defined B T D m x' b t Hm Hx') as [v' Hv']; [by eexists|].
  rewrite Hv, Hv'. simpl. destruct pb, mb; try done.
  specialize (Hagree b t Hmb Hpb). congruence.
Qed.

Lemma preprocess_hides_masked_features_witness :
  preprocess_object_features example_encoder example_features
    (Some example_object_mask) (Some example_pad_mask)
  = preprocess_object_features example_encoder example_features_alt
      (Some example_object_mask) (Some example_pad_mask).
Proof.
  apply (preprocess_hides_masked_features example_encoder 1 3 2);
    try reflexivity;
    try (split; [reflexivity|repeat constructor]).
  intros [|b] [|[|[|t]]]; try discriminate; reflexivity.
Defined.

(** X4. A mask made for another batch size is a shape error, not a silent
    truncation: when the mask and the features have different numbers of
    rows, neither of them 1, [preprocess_object_features] raises and
    [forward] ends without calling a layer. *)
Theorem preprocess_rejects_batch_mismatch (self : t) (x : Tensor3)
    (m : Mask) (pad_mask : option Mask) :
  length m ≠ length x → length m ≠ 1%nat → length x ≠ 1%nat →
  preprocess_object_features self x (Some m) pad_mask = None ∧
  forward self x (Some m) pad_mask = ([], None).
Proof.
  intros Hne Hm1 Hx1.
  assert (preprocess_object_features self x (Some m) pad_mask = None) as Hpre.
  { unfold preprocess_object_features, substitute. rewrite tmul_mask_feat.
    simpl.
    assert (tmul (rsub 1 (unsqueeze2_float m)) x = None) as ->; [|done].
    unfold tmul, ew3, broadcast, rsub, unsqueeze2_float.
    rewrite decide_False by (by rewrite !length_fmap).
    destruct m as [|mrow [|mrow' m]]; destruct x as [|xrow [|xrow' x]];
      simpl in *; done. }
  split; [done|]. unfold forward. by rewrite Hpre.
Qed.

Lemma preprocess_rejects_batch_mismatch_witness :
  preprocess_object_features example_encoder example_features_two
    (Some example_mask_three) None = None ∧
  forward example_encoder example_features_two (Some example_mask_three) None
  = ([], None).
Proof.
  apply (preprocess_rejects_batch_mismatch example_encoder); simpl; lia.
Defined.



End SubstitutionMore.

Import TrainMore.

(** ** More on [eval_model] *)

Section EvaluationMore.
Context `{Network}.


Lemma consumed_nothing exp_const (dataloader : list (Batch Annotations)) :
  dataloader = [] ∨
  (∃ k, num_val_samples exp_const = Some k ∧ (k ≤ 0)%Z) →
  consumed exp_const 0 dataloader = [].
Proof.
  intros [->|(k & Hk & Hle)]; [done|].
  destruct dataloader as [|data dataloader]; [done|].
  cbn [consumed]. rewrite Hk. by rewrite bool_decide_true.
Qed.

(** X7. With an empty loader, or with [num_val_samples] zero or negative,
    [eval_model] runs no forward pass and raises [ZeroDivisionError]; a
    training iteration that validates on an empty loader ends in that
    error. *)
Theorem eval_model_without_samples (model : TrainedModel)
    (dataloader : list (Batch Annotations)) (exp_const : ExpConst)
    (step : Z) (g : bool) :
  dataloader = [] ∨
  (∃ k, num_val_samples exp_const = Some k ∧ (k ≤ 0)%Z) →
  eval_model model dataloader exp_const step g
  = ([SetEvalMode], inl ZeroDivisionError) ∧
  ∀ dataloaders opt epoch it data st,
    val dataloaders (val_passes st) = dataloader →
    log_step exp_const ≠ 0%Z → model_save_step exp_const ≠ 0%Z →
    val_step exp_const ≠ 0%Z →
    (Train.step st `mod` val_step exp_const = 0)%Z →
    (train_iteration (const model) dataloaders exp_const opt
       epoch it data st g).2 = inl ZeroDivisionError.
Proof.
  intros Hnone.
  assert (∀ model' step' g',
    eval_model model' dataloader exp_const step' g' =
    ([SetEvalMode], inl ZeroDivisionError)) as Hev.
  { intros. rewrite eval_model_run. cbv zeta.
    by rewrite consumed_nothing. }
  split; [apply Hev|].
  intros dataloaders opt epoch it data st Hval Hlog Hsave Hvs Hmod.
  rewrite train_iteration_run. cbv zeta.
  rewrite !decide_False by done. rewrite (bool_decide_true _ Hmod).
  by rewrite Hval, Hev.
Qed.

Lemma weighted_sum_bounds exp_const w (term : LossTerms → Qc) (lo hi : Qc)
    (batches : list (Batch Annotations)) :
  Forall (λ data, lo ≤ term (forward_pass exp_const false w data) ≤ hi)
    batches →
  lo * Qc_of_Z (samples batches) ≤ weighted_sum exp_const w term batches ∧
  weighted_sum exp_const w term batches ≤ hi * Qc_of_Z (samples batches).
Proof.
  induction 1 as [|data batches [Hlo Hhi] _ [IHlo IHhi]].
  - simpl. rewrite Z2Qc_inj_0, !Qcmult_0_r. split; apply Qcle_refl.
  - rewrite weighted_sum_cons, samples_cons, Z2Qc_inj_add,
      !Qcmult_plus_distr_r.
    assert (0 ≤ Qc_of_Z (batch_size data)) as Hsize.
    { rewrite <-Z2Qc_inj_0. apply (proj1 (Z2Qc_inj_le _ _)).
      unfold batch_size. lia. }
    split; apply Qcplus_le_compat; try done;
      by apply Qcmult_le_compat_r.
Qed.

Lemma eval_average_bounds exp_const w (term : LossTerms → Qc) (lo hi : Qc)
    (dataloader : list (Batch Annotations)) :
  samples (consumed exp_const 0 dataloader) ≠ 0%Z →
  Forall (λ data, lo ≤ term (forward_pass exp_const false w data) ≤ hi)
    dataloader →
  lo ≤ weighted_sum exp_const w term (consumed exp_const 0 dataloader)
       / Qc_of_Z (samples (consumed exp_const 0 dataloader)) ≤ hi.
Proof.
  intros Hn Hall.
  destruct (consumed_prefix exp_const 0 dataloader) as (rest & Hrest & _).
  rewrite Hrest in Hall. apply Forall_app in Hall as [Hall _].
  destruct (weighted_sum_bounds exp_const w term lo hi _ Hall) as [Hlo Hhi].
  set (batches := consumed exp_const 0 dataloader) in *.
  assert (0 < Qc_of_Z (samples batches)) as Hpos.
  { rewrite <-Z2Qc_inj_0. apply (proj1 (Z2Qc_inj_lt _ _)).
    assert (0 ≤ samples batches)%Z; [|lia].
    clear. induction batches as [|d batches IH]; [done|].
    rewrite samples_cons. unfold batch_size. lia. }
  assert (Qc_of_Z (samples batches) ≠ 0) as Hne.
  { intros Heq. rewrite Heq in Hpos. by apply Qclt_not_eq in Hpos. }
  split; apply (Qcmult_lt_0_le_reg_r _ _ _ Hpos);
    by rewrite (Qcmult_comm (_ / _)), Qcmult_div_r.
Qed.

(** X8. Each averaged loss term that [eval_model] returns lies between
    bounds that hold for the term on every batch of the loader: an average
    is never below the smallest nor above the largest batch loss. *)
Theorem eval_model_average_between_extremes (model : TrainedModel)
    (dataloader : list (Batch Annotations)) (exp_const : ExpConst)
    (step : Z) (g : bool) (eval_results : EvalResults)
    (lo_self hi_self lo_lang hi_lang lo_neg hi_neg : Qc) :
  (eval_model model dataloader exp_const step g).2 = inr eval_results →
  Forall (λ data,
            let l := forward_pass exp_const false (weights model) data in
            lo_self ≤ self_sup_loss l ≤ hi_self ∧
            lo_lang ≤ lang_sup_loss l ≤ hi_lang ∧
            lo_neg ≤ neg_noun_loss l ≤ hi_neg) dataloader →
  lo_self ≤ res_self_sup_loss eval_results ≤ hi_self ∧
  lo_lang ≤ res_lang_sup_loss eval_results ≤ hi_lang ∧
  lo_neg ≤ res_neg_noun_loss eval_results ≤ hi_neg.
Proof.
  intros Hres Hall.
  rewrite eval_model_run in Hres. cbv zeta in Hres. cbn [snd] in Hres.
  case_decide as Hn; [done|]. injection Hres as <-.
  cbn [res_self_sup_loss res_lang_sup_loss res_neg_noun_loss].
  split; [|split]; apply eval_average_bounds; try done;
    (eapply Forall_impl; [exact Hall|]); cbv zeta;
    intros data (Hself & Hlang & Hneg); assumption.
Qed.

End EvaluationMore.

Lemma eval_model_without_samples_witness :
  @eval_model toy_network toy_model [] toy_exp_const 0 true
  = ([SetEvalMode], inl ZeroDivisionError).
Proof.
  apply (eval_model_without_samples toy_model [] toy_exp_const 0 true).
  by left.
Defined.

Lemma eval_model_average_between_extremes_witness :
  ∃ eval_results,
    (@eval_model toy_network toy_model (val toy_dataloaders 0) toy_exp_const
       0 true).2 = inr eval_results ∧
    Qc_of_Z 0 ≤ res_self_sup_loss eval_results ≤ Qc_of_Z 10 ∧
    1 ≤ res_lang_sup_loss eval_results ≤ 1 ∧
    0 ≤ res_neg_noun_loss eval_results ≤ 0.
Proof.
  eexists. split; [reflexivity|].
  apply (eval_model_average_between_extremes toy_model
           (val toy_dataloaders 0) toy_exp_const 0 true);
    [reflexivity|].
  repeat constructor; by vm_compute.
Defined.

(** ** Runs that complete *)

Section CompleteRuns.
Context `{Network}.

(** What is known of an iteration that returns. *)
Lemma iteration_returns model_const dataloaders exp_const opt epoch it
    data st g tr st' :
  train_iteration model_const dataloaders exp_const opt epoch it data st g
  = (tr, inr st') →
  log_step exp_const ≠ 0%Z ∧ model_save_step exp_const ≠ 0%Z ∧
  val_step exp_const ≠ 0%Z ∧
  Train.step st' = (Train.step st + 1)%Z ∧
  cur_weights st' = optimizer_update opt exp_const (cur_weights st) data ∧
  validation_passes tr
  = (if bool_decide (Train.step st `mod` val_step exp_const = 0)%Z
     then 1 else 0)%nat ∧
  val_passes st' = (val_passes st + validation_passes tr)%nat.
Proof.
  pose proof (validation_passes_eval
    {| const := model_const;
       weights := optimizer_update opt exp_const (cur_weights st) data |}
    (val dataloaders (val_passes st)) exp_const (Train.step st) false) as Hev'.
  iteration_cases; intros Hrun; simplify_eq; cbn [fst] in *;
    try (rewrite Hev in Hev'; cbn [fst] in Hev').
  all: split_and!; try done.
  all: try (unfold validation_passes in *;
    rewrite ?omap_app, ?length_app, ?Hev';
    rewrite ?omap_log_events, ?omap_validation_log_events,
      ?omap_if_periodic_save_events, ?omap_backward_events by done;
    cbn [omap list_omap length Train.val_passes];
    rewrite ?omap_best_save_events by done; cbn [length]; lia).
Qed.

(** A property of (start state, batches, trace, end state) that holds of
    the empty run and is carried over one returning iteration holds of
    every returning run of the loops. *)
Section Induction.
Context (model_const : ModelConst) (dataloaders : DataLoaders)
        (exp_const : ExpConst) (opt : Optimizer) (g : bool).
Context (R : LoopState → list (Batch Annotations) → list event →
             LoopState → Prop).
Hypothesis R_nil : ∀ st, R st [] [] st.
Hypothesis R_iteration : ∀ st epoch it data tr st',
  train_iteration model_const dataloaders exp_const opt epoch it data st g
  = (tr, inr st') →
  ∀ ds tr' st'', R st' ds tr' st'' → R st (data :: ds) (tr ++ tr') st''.

Lemma train_epoch_returns epoch batches : ∀ it st tr st',
  train_epoch model_const dataloaders exp_const opt epoch it batches st g
  = (tr, inr st') →
  ∀ ds tr' st'', R st' ds tr' st'' → R st (batches ++ ds) (tr ++ tr') st''.
Proof.
  induction batches as [|data batches IH]; intros it st tr st' Hrun.
  - injection Hrun as <- <-. auto.
  - cbn [train_epoch] in Hrun.
    destruct (train_iteration model_const dataloaders exp_const opt
                epoch it data st g) as [tr1 [e|st1]] eqn:Hit.
    { by erewrite bind_raises in Hrun by exact Hit. }
    erewrite bind_returns in Hrun by exact Hit.
    destruct (train_epoch model_const dataloaders exp_const opt
                epoch (S it) batches st1 g) as [tr2 r2] eqn:Hrest.
    cbn [fst snd] in Hrun. simplify_eq.
    intros ds tr' st'' HR. rewrite <-app_comm_cons, <-app_assoc.
    eapply R_iteration; [done|]. by eapply IH.
Qed.

Lemma train_epochs_returns n : ∀ epoch st tr st',
  train_epochs model_const dataloaders exp_const opt n epoch st g
  = (tr, inr st') →
  R st (all_batches dataloaders n epoch) tr st'.
Proof.
  induction n as [|n IH]; intros epoch st tr st' Hrun.
  - injection Hrun as <- <-. apply R_nil.
  - cbn [train_epochs] in Hrun.
    destruct (train_epoch model_const dataloaders exp_const opt
                epoch 0 (train dataloaders epoch) st g)
      as [tr1 [e|st1]] eqn:Hep.
    { by erewrite bind_raises in Hrun by exact Hep. }
    erewrite bind_returns in Hrun by exact Hep.
    destruct (train_epochs model_const dataloaders exp_const opt
                n (S epoch) st1 g) as [tr2 r2] eqn:Hrest.
    cbn [fst snd] in Hrun. simplify_eq. cbn [all_batches].
    eapply train_epoch_returns; [done|]. by eapply IH.
Qed.

End Induction.

(** When [train_model] returns, the optimiser was accepted and the loops
    returned, with the trace of [train_model]. *)
Lemma train_model_returns model dataloaders exp_const g :
  (train_model model dataloaders exp_const g).2 = inr () →
  ∃ opt st',
    (make_optimizer exp_const g).2 = inr opt ∧
    train_epochs (const model) dataloaders exp_const opt
      (Z.to_nat (num_epochs exp_const)) 0 (initial_state model) g
    = ((train_model model dataloaders exp_const g).1, inr st').
Proof.
  rewrite train_model_trace. unfold train_model.
  destruct (make_optimizer exp_const g) as [tr0 [e|opt]] eqn:Hopt.
  { by erewrite bind_raises by exact Hopt. }
  erewrite bind_returns by exact Hopt. cbn [fst snd].
  destruct (train_epochs (const model) dataloaders exp_const opt
              (Z.to_nat (num_epochs exp_const)) 0 (initial_state model) g)
    as [tr [e|st']] eqn:Hrun.
  { by erewrite bind_raises by exact Hrun. }
  intros _. by exists opt, st'.
Qed.

Lemma fmap_constant {A B} (c : B) (l : list A) :
  (λ _, c) <$> l = replicate (length l) c.
Proof. induction l as [|x l IH]; [done|]. simpl. f_equal. exact IH. Qed.

Lemma iterations_started_iteration model_const dataloaders exp_const opt
    epoch it data st g :
  iterations_started
    (train_iteration model_const dataloaders exp_const opt
       epoch it data st g).1 = 1%nat.
Proof. unfold iterations_started. by rewrite omap_iteration_training. Qed.

(** Everything the further properties need of a returning run of the
    loops. *)
Lemma loops_return_summary model_const dataloaders exp_const opt g n
    epoch st tr st' :
  train_epochs model_const dataloaders exp_const opt n epoch st g
  = (tr, inr st') →
  let batches := all_batches dataloaders n epoch in
  let steps := steps_from (Train.step st) (length batches) in
  Train.step st' = (Train.step st + Z.of_nat (length batches))%Z ∧
  cur_weights st'
  = foldl (optimizer_update opt exp_const) (cur_weights st) batches ∧
  iterations_started tr = length batches ∧
  length (backward_losses tr) = length batches ∧
  val_passes st' = (val_passes st + validation_passes tr)%nat ∧
  validation_passes tr
  = length (filter (λ s, (s `mod` val_step exp_const = 0)%Z) steps) ∧
  ckpt_step <$> periodic_checkpoints exp_const tr
  = filter (λ s, (s `mod` model_save_step exp_const = 0)%Z) steps
    ≫= replicate (length (periodic_save_items exp_const)).
Proof.
  cbv zeta.
  apply (train_epochs_returns model_const dataloaders exp_const opt g
    (λ st ds tr st',
       Train.step st' = (Train.step st + Z.of_nat (length ds))%Z ∧
       cur_weights st'
       = foldl (optimizer_update opt exp_const) (cur_weights st) ds ∧
       iterations_started tr = length ds ∧
       length (backward_losses tr) = length ds ∧
       val_passes st' = (val_passes st + validation_passes tr)%nat ∧
       validation_passes tr
       = length (filter (λ s, (s `mod` val_step exp_const = 0)%Z)
                   (steps_from (Train.step st) (length ds))) ∧
       ckpt_step <$> periodic_checkpoints exp_const tr
       = filter (λ s, (s `mod` model_save_step exp_const = 0)%Z)
           (steps_from (Train.step st) (length ds))
         ≫= replicate (length (periodic_save_items exp_const)))).
  - intros st0. split_and!; try done; simpl; lia.
  - clear. intros st epoch it data tr st1 Hit ds tr' st2
      (Hstep & Hw & Hits & Hback & Hvp & Hval & Hper).
    destruct (iteration_returns _ _ _ _ _ _ _ _ _ _ _ Hit)
      as (Hlog & Hsave & Hvs & Hstep1 & Hw1 & Hval1 & Hvp1).
    pose proof (iterations_started_iteration model_const dataloaders
                  exp_const opt epoch it data st g) as Hits1.
    pose proof (periodic_checkpoints_iteration model_const dataloaders
                  exp_const opt epoch it data st g) as Hper1.
    assert (length (backward_losses
              (train_iteration model_const dataloaders exp_const opt
                 epoch it data st g).1) = 1%nat) as Hback1.
    { unfold backward_losses. by rewrite omap_iteration_training. }
    rewrite Hit in Hits1, Hper1, Hback1. cbn [fst] in Hits1, Hper1, Hback1.
    cbn [length steps_from foldl]. rewrite <-Hstep1, <-Hw1.
    split_and!.
    + lia.
    + done.
    + unfold iterations_started in *. rewrite omap_app, length_app. lia.
    + unfold backward_losses in *. rewrite omap_app, length_app. lia.
    + unfold validation_passes in *. rewrite omap_app, length_app. lia.
    + unfold validation_passes in *. rewrite omap_app, length_app.
      rewrite filter_cons. rewrite Hval, Hval1.
      case_bool_decide; [rewrite decide_True by done
                        |rewrite decide_False by done]; done.
    + rewrite periodic_checkpoints_app, fmap_app, Hper, Hper1.
      rewrite filter_cons.
      destruct (decide (Train.step st `mod` model_save_step exp_const
                        = 0)%Z) as [Hmod|Hmod].
      * rewrite decide_True by done.
        rewrite <-list_fmap_compose. cbn [mbind list_bind].
        by rewrite (fmap_constant (Train.step st)).
      * by rewrite decide_False by (by intros (_ & _ & ?)).
Qed.

(** X9. When the loops return, the step counter has advanced by the number
    of batches of the loader passes made, the weights are those obtained
    by applying the optimiser update to these batches in order (logging,
    saving and validating leave them alone), and the validation loader has
    been iterated once per validation pass. *)
Theorem loops_final_state (model_const : ModelConst)
    (dataloaders : DataLoaders) (exp_const : ExpConst) (opt : Optimizer)
    (g : bool) (n epoch : nat) (st st' : LoopState) (tr : list event) :
  train_epochs model_const dataloaders exp_const opt n epoch st g
  = (tr, inr st') →
  let batches := all_batches dataloaders n epoch in
  Train.step st' = (Train.step st + Z.of_nat (length batches))%Z ∧
  cur_weights st'
  = foldl (optimizer_update opt exp_const) (cur_weights st) batches ∧
  val_passes st' = (val_passes st + validation_passes tr)%nat.
Proof.
  intros Hrun.
  destruct (loops_return_summary _ _ _ _ _ _ _ _ _ _ Hrun)
    as (? & ? & _ & _ & ? & _).
  done.
Qed.

(** X10. A run of [train_model] that returns has made one iteration, with
    one backward pass, per batch of [num_epochs] passes over the training
    loader, and one validation pass per step that is a multiple of
    [val_step] among the steps [initial step, initial step + 1, ...] of
    these iterations. *)
Theorem complete_run_counts (model : TrainedModel)
    (dataloaders : DataLoaders) (exp_const : ExpConst) (g : bool) :
  (train_model model dataloaders exp_const g).2 = inr () →
  let tr := (train_model model dataloaders exp_const g).1 in
  let batches :=
    all_batches dataloaders (Z.to_nat (num_epochs exp_const)) 0 in
  let steps :=
    steps_from (initial_step (model_num (const model))) (length batches) in
  iterations_started tr = length batches ∧
  length (backward_losses tr) = length batches ∧
  validation_passes tr
  = length (filter (λ s, (s `mod` val_step exp_const = 0)%Z) steps).
Proof.
  intros Hret. cbv zeta.
  destruct (train_model_returns _ _ _ _ Hret) as (opt & st' & _ & Hrun).
  by destruct (loops_return_summary _ _ _ _ _ _ _ _ _ _ Hrun)
    as (_ & _ & Hits & Hback & _ & Hval & _).
Qed.

(** X11. In a run of [train_model] that returns, the steps recorded in the
    periodic checkpoints are exactly the multiples of [model_save_step]
    among the steps of its iterations, in order, each once per saved
    sub-model. *)
Theorem complete_run_periodic_steps (model : TrainedModel)
    (dataloaders : DataLoaders) (exp_const : ExpConst) (g : bool) :
  (train_model model dataloaders exp_const g).2 = inr () →
  let tr := (train_model model dataloaders exp_const g).1 in
  let batches :=
    all_batches dataloaders (Z.to_nat (num_epochs exp_const)) 0 in
  let steps :=
    steps_from (initial_step (model_num (const model))) (length batches) in
  ckpt_step <$> periodic_checkpoints exp_const tr
  = filter (λ s, (s `mod` model_save_step exp_const = 0)%Z) steps
    ≫= replicate (length (periodic_save_items exp_const)).
Proof.
  intros Hret. cbv zeta.
  destruct (train_model_returns _ _ _ _ Hret) as (opt & st' & _ & Hrun).
  by destruct (loops_return_summary _ _ _ _ _ _ _ _ _ _ Hrun)
    as (_ & _ & _ & _ & _ & _ & Hper).
Qed.

End CompleteRuns.

Lemma loops_final_state_witness :
  ∃ st' tr,
    @train_epochs toy_network (const toy_model) toy_dataloaders toy_exp_const
      (SGD 1 0) 1 0 (initial_state toy_model) true = (tr, inr st') ∧
    Train.step st' = 2%Z ∧ cur_weights st' = 2%Z ∧ val_passes st' = 2%nat.
Proof.
  eexists _, _. split; [reflexivity|].
  destruct (loops_final_state (const toy_model) toy_dataloaders
              toy_exp_const (SGD 1 0) true 1 0 (initial_state toy_model)
              _ _ eq_refl) as (Hstep & Hw & Hvp).
  split_and!; [exact Hstep|exact Hw|exact Hvp].
Defined.

Lemma complete_run_counts_witness :
  let tr := (@train_model toy_network toy_model toy_dataloaders
               toy_exp_const true).1 in
  iterations_started tr = 2%nat ∧ length (backward_losses tr) = 2%nat ∧
  validation_passes tr = 2%nat.
Proof.
  apply (complete_run_counts toy_model toy_dataloaders toy_exp_const true).
  reflexivity.
Defined.

Lemma complete_run_periodic_steps_witness :
  ckpt_step
    <$> periodic_checkpoints toy_exp_const
          (@train_model toy_network toy_model toy_dataloaders
             toy_exp_const true).1
  = [0%Z; 0%Z; 0%Z].
Proof.
  apply (complete_run_periodic_steps toy_model toy_dataloaders
           toy_exp_const true).
  reflexivity.
Defined.

(** ** Runs that stop early or do nothing *)

Section EarlyStops.
Context `{Network}.

Lemma train_model_first_iteration_raises model dataloaders exp_const g opt
    data rest tr e :
  (make_optimizer exp_const g).2 = inr opt →
  (0 < num_epochs exp_const)%Z →
  train dataloaders 0 = data :: rest →
  train_iteration (const model) dataloaders exp_const opt 0 0 data
    (initial_state model) g = (tr, inl e) →
  train_model model dataloaders exp_const g = (tr, inl e).
Proof.
  intros Hopt Hepochs Htrain Hit. unfold train_model.
  assert (make_optimizer exp_const g = ([], inr opt)) as Hmk.
  { rewrite make_optimizer_run in Hopt |- *.
    by repeat case_bool_decide; simplify_eq/=. }
  erewrite bind_returns by exact Hmk. cbn [app].
  destruct (Z.to_nat (num_epochs exp_const)) as [|n] eqn:Hn; [lia|].
  cbn [train_epochs]. rewrite Htrain. cbn [train_epoch].
  assert ((train_iteration (const model) dataloaders exp_const opt 0 0 data
             (initial_state model) ≫= λ st,
           train_epoch (const model) dataloaders exp_const opt 0 1 rest st) g
          = (tr, inl e)) as Hep
    by (by erewrite bind_raises by exact Hit).
  assert (((train_iteration (const model) dataloaders exp_const opt 0 0 data
             (initial_state model) ≫= λ st,
            train_epoch (const model) dataloaders exp_const opt 0 1 rest st)
           ≫= λ st, train_epochs (const model) dataloaders exp_const opt
                      n 1 st) g
          = (tr, inl e)) as Heps
    by (by erewrite bind_raises by exact Hep).
  by erewrite bind_raises by exact Heps.
Qed.

(** X12. An interval of zero stops a run in its first iteration with
    [ZeroDivisionError]: one backward pass has been made by then, no
    validation pass has run and no 'best' checkpoint has been written. *)
Theorem zero_interval_stops_first_iteration (model : TrainedModel)
    (dataloaders : DataLoaders) (exp_const : ExpConst) (g : bool)
    (data : Batch Annotations) (rest : list (Batch Annotations)) :
  optimizer exp_const = "SGD" ∨ optimizer exp_const = "Adam" →
  (0 < num_epochs exp_const)%Z →
  train dataloaders 0 = data :: rest →
  log_step exp_const = 0%Z ∨ model_save_step exp_const = 0%Z ∨
    val_step exp_const = 0%Z →
  let r := train_model model dataloaders exp_const g in
  r.2 = inl ZeroDivisionError ∧
  iterations_started r.1 = 1%nat ∧
  length (backward_losses r.1) = 1%nat ∧
  validation_passes r.1 = 0%nat ∧
  best_checkpoints exp_const r.1 = [].
Proof.
  intros Hopt Hepochs Htrain Hzero. cbv zeta.
  assert (∃ opt, (make_optimizer exp_const g).2 = inr opt) as [opt Hmk].
  { rewrite make_optimizer_run.
    destruct Hopt as [-> | ->]; repeat case_bool_decide; by eauto. }
  assert (∃ tr,
    train_iteration (const model) dataloaders exp_const opt 0 0 data
      (initial_state model) g = (tr, inl ZeroDivisionError) ∧
    validation_passes tr = 0%nat ∧ best_checkpoints exp_const tr = [])
    as (tr & Hit & Hval & Hbest).
  { rewrite train_iteration_run. cbv zeta.
    destruct (decide (log_step exp_const = 0%Z)) as [Hlog|Hlog].
    { eexists. split; [done|]. split; [done|].
      apply best_checkpoints_backward. }
    destruct (decide (model_save_step exp_const = 0%Z)) as [Hsave|Hsave].
    { eexists. split; [done|]. split.
      - unfold validation_passes. rewrite omap_app.
        by rewrite omap_log_events, omap_backward_events.
      - by checkpoint_segments. }
    rewrite decide_True by tauto.
    eexists. split; [done|]. split.
    - unfold validation_passes. rewrite !omap_app.
      by rewrite omap_log_events, omap_backward_events,
        omap_if_periodic_save_events.
    - by checkpoint_segments. }
  rewrite (train_model_first_iteration_raises model dataloaders exp_const g
             opt data rest tr ZeroDivisionError) by done.
  cbn [fst snd]. split_and!; [done| | |done|done].
  - pose proof (iterations_started_iteration (const model) dataloaders
                  exp_const opt 0 0 data (initial_state model) g) as Hits.
    by rewrite Hit in Hits.
  - assert (length (backward_losses
              (train_iteration (const model) dataloaders exp_const opt
                 0 0 data (initial_state model) g).1) = 1%nat) as Hback.
    { unfold backward_losses. by rewrite omap_iteration_training. }
    by rewrite Hit in Hback.
Qed.

Lemma train_epochs_no_batches model_const dataloaders exp_const opt g n :
  (∀ epoch, train dataloaders epoch = []) →
  ∀ epoch st,
    train_epochs model_const dataloaders exp_const opt n epoch st g
    = ([], inr st).
Proof.
  intros Hempty. induction n as [|n IH]; intros epoch st; [done|].
  cbn [train_epochs]. rewrite Hempty. cbn [train_epoch].
  erewrite bind_returns by reflexivity. by rewrite IH.
Qed.

(** X13. With a supported optimiser, a run over no epochs
    ([num_epochs] zero or negative) or over loaders that yield no batch
    returns at once: nothing is trained, logged, validated or saved. *)
Theorem run_without_batches_does_nothing (model : TrainedModel)
    (dataloaders : DataLoaders) (exp_const : ExpConst) (g : bool) :
  optimizer exp_const = "SGD" ∨ optimizer exp_const = "Adam" →
  (num_epochs exp_const ≤ 0)%Z ∨ (∀ epoch, train dataloaders epoch = []) →
  train_model model dataloaders exp_const g = ([], inr ()).
Proof.
  intros Hopt Hnone. unfold train_model.
  assert (∃ opt, make_optimizer exp_const g = ([], inr opt)) as [opt Hmk].
  { rewrite make_optimizer_run.
    destruct Hopt as [-> | ->]; repeat case_bool_decide; by eauto. }
  erewrite bind_returns by exact Hmk. cbn [app].
  assert (train_epochs (const model) dataloaders exp_const opt
            (Z.to_nat (num_epochs exp_const)) 0 (initial_state model) g
          = ([], inr (initial_state model))) as Hrun.
  { destruct Hnone as [Hle|Hempty].
    - by replace (Z.to_nat (num_epochs exp_const)) with 0%nat by lia.
    - by apply train_epochs_no_batches. }
  by erewrite bind_returns by exact Hrun.
Qed.

End EarlyStops.

Lemma zero_interval_stops_first_iteration_witness :
  let r := @train_model toy_network toy_model toy_dataloaders
             toy_exp_const_log0 true in
  r.2 = inl ZeroDivisionError ∧
  iterations_started r.1 = 1%nat ∧
  length (backward_losses r.1) = 1%nat ∧
  validation_passes r.1 = 0%nat ∧
  best_checkpoints toy_exp_const_log0 r.1 = [].
Proof.
  eapply (zero_interval_stops_first_iteration toy_model toy_dataloaders
            toy_exp_const_log0 true);
    [by right|reflexivity|reflexivity|by left].
Defined.

Lemma run_without_batches_does_nothing_witness :
  @train_model toy_network toy_model toy_empty_dataloaders toy_exp_const true
  = ([], inr ()).
Proof.
  apply (run_without_batches_does_nothing toy_model toy_empty_dataloaders
           toy_exp_const true); [by left|by right].
Defined.

(** ** The chain of best checkpoints *)

Section BestChain.
Context `{Network}.

Lemma linked_earlier (s s' : Z) (best : Qc) (imps : list (Z * Qc * Qc)) :
  (s ≤ s')%Z → linked s' best imps → linked s best imps.
Proof.
  destruct imps as [|[[t v] prev] imps]; [done|]. simpl.
  intros Hs (Ht & ? & ? & ?). split_and!; [lia|done..].
Qed.

(** X14. The 'best' checkpoints of a run form a chain: they come in rounds
    of one file per saved sub-model, all files of a round carry the same
    step, loss and previous best loss, the previous best loss of the first
    round is 10000 (also on a resumed run) and that of every later round is
    the loss of the round before, every round improves strictly on its
    previous best, and the rounds are made at increasing steps. *)
Theorem best_checkpoints_form_a_chain (model : TrainedModel)
    (dataloaders : DataLoaders) (exp_const : ExpConst) (g : bool) :
  ∃ imps : list (Z * Qc * Qc),
    (λ c, (ckpt_step c, ckpt_val_loss c, ckpt_prev_best_val_loss c))
    <$> best_checkpoints exp_const
          (train_model model dataloaders exp_const g).1
    = imps ≫= (λ imp, replicate (length (best_save_items exp_const))
                        (imp.1.1, Some imp.1.2, imp.2)) ∧
    linked (initial_step (model_num (const model))) (Qc_of_Z 10000) imps.
Proof.
  apply (train_model_trace_ind
    (λ st tr, ∃ imps : list (Z * Qc * Qc),
       (λ c, (ckpt_step c, ckpt_val_loss c, ckpt_prev_best_val_loss c))
       <$> best_checkpoints exp_const tr
       = imps ≫= (λ imp, replicate (length (best_save_items exp_const))
                           (imp.1.1, Some imp.1.2, imp.2)) ∧
       linked (Train.step st) (best_val_loss st) imps)).
  - intros st. by exists [].
  - intros opt st epoch it data. cbv zeta.
    pose proof (best_checkpoints_iteration (const model) dataloaders
                  exp_const opt epoch it data st g) as Hit.
    cbv zeta in Hit.
    destruct (train_iteration (const model) dataloaders exp_const opt
                epoch it data st g) as [tr [e|st']] eqn:Hrun;
      cbn [fst snd] in *.
    + destruct Hit as [(-> & _)|(res & _ & _ & _ & _ & _ & _ & _ & ? & ? & _)];
        [|done].
      by exists [].
    + destruct (iteration_returns _ _ _ _ _ _ _ _ _ _ _ Hrun)
        as (_ & _ & _ & Hstep & _).
      destruct Hit as [(Hnone & Hsame & _)
                      |(res & _ & _ & _ & _ & _ & Hlt & Hbest & ? & [= <-]
                        & Hnew)].
      * intros tr' (imps & Himps & Hlinked). exists imps.
        rewrite best_checkpoints_app, Hnone, app_nil_l. split; [done|].
        rewrite <-(Hsame st') by done.
        eapply linked_earlier; [|done]. lia.
      * intros tr' (imps & Himps & Hlinked).
        exists ((Train.step st, total_loss res, best_val_loss st) :: imps).
        split.
        -- rewrite best_checkpoints_app, fmap_app, Himps, Hbest.
           cbn [mbind list_bind fst snd]. f_equal.
           rewrite <-list_fmap_compose.
           apply (fmap_constant
                    (Train.step st, Some (total_loss res), best_val_loss st)).
        -- simpl. split_and!; [lia|done|done|].
           by rewrite <-Hstep, <-Hnew.
Qed.

End BestChain.

(** ** The files of the periodic checkpoints *)

Section PeriodicPaths.
Context `{Network}.

Lemma periodic_path_inj exp_const (item1 item2 : string * Component)
    (s1 s2 : Z) :
  item1 ∈ periodic_save_items exp_const →
  item2 ∈ periodic_save_items exp_const →
  os_path_join (model_dir exp_const) (item1.1 +:+ "_" +:+ pretty s1)
  = os_path_join (model_dir exp_const) (item2.1 +:+ "_" +:+ pretty s2) →
  item1 = item2 ∧ s1 = s2.
Proof.
  intros Hin1 Hin2 Heq. unfold periodic_save_items in *.
  assert (String.prefix "/" (item1.1 +:+ "_" +:+ pretty s1) = false
          ∧ String.prefix "/" (item2.1 +:+ "_" +:+ pretty s2) = false
          ∧ (item1.1 +:+ "_" +:+ pretty s1 = item2.1 +:+ "_" +:+ pretty s2 →
             item1 = item2 ∧ s1 = s2)) as (Hp1 & Hp2 & Hinj).
  { destruct (random_lang exp_const);
      repeat (apply elem_of_cons in Hin1 as [->|Hin1]);
      try (by apply elem_of_nil in Hin1);
      repeat (apply elem_of_cons in Hin2 as [->|Hin2]);
      try (by apply elem_of_nil in Hin2);
      (split_and!; [done|done|]); cbn [fst String.app]; intros Hs;
      try discriminate Hs;
      (split; [done|]); apply (inj pretty);
      by do 2 apply (inj (String.app _)) in Hs. }
  apply Hinj. by apply os_path_join_inj in Heq.
Qed.

Lemma periodic_paths_app exp_const (tr1 tr2 : list event) :
  periodic_paths exp_const (tr1 ++ tr2)
  = periodic_paths exp_const tr1 ++ periodic_paths exp_const tr2.
Proof. apply omap_app. Qed.

Lemma periodic_paths_if_periodic exp_const (b : bool) w step best :
  periodic_paths exp_const
    (if b then periodic_save_events exp_const w step best else [])
  = if b then
      (λ item : string * Component,
         os_path_join (model_dir exp_const) (item.1 +:+ "_" +:+ pretty step))
      <$> periodic_save_items exp_const
    else [].
Proof.
  destruct b; [|done].
  apply omap_fmap_Some_Forall, Forall_forall. intros item Hitem.
  by rewrite periodic_path_not_best.
Qed.

Lemma periodic_paths_best exp_const w step val_loss best :
  periodic_paths exp_const (best_save_events exp_const w step val_loss best)
  = [].
Proof.
  apply omap_fmap_None_Forall, Forall_forall. intros item Hitem.
  by rewrite best_path_is_best.
Qed.

Lemma periodic_paths_print exp_const s (tr : list event) :
  periodic_paths exp_const (Print s :: tr) = periodic_paths exp_const tr.
Proof. done. Qed.

Lemma periodic_paths_backward exp_const data st g :
  periodic_paths exp_const (backward_events exp_const data st g) = [].
Proof. by apply omap_backward_events. Qed.

Lemma periodic_paths_log exp_const epoch it step l loss :
  periodic_paths exp_const (log_events exp_const epoch it step l loss) = [].
Proof. by apply omap_log_events. Qed.

Lemma periodic_paths_validation_log exp_const eval_results step :
  periodic_paths exp_const (validation_log_events eval_results step) = [].
Proof. by apply omap_validation_log_events. Qed.

Lemma periodic_paths_eval exp_const model dataloader exp_const' step g :
  periodic_paths exp_const
    (eval_model model dataloader exp_const' step g).1 = [].
Proof. by apply omap_eval_model. Qed.

Lemma periodic_paths_iteration model_const dataloaders exp_const opt
    epoch it data st g :
  periodic_paths exp_const
    (train_iteration model_const dataloaders exp_const opt
       epoch it data st g).1
  = if decide (log_step exp_const ≠ 0%Z ∧ model_save_step exp_const ≠ 0%Z ∧
               (Train.step st `mod` model_save_step exp_const = 0)%Z)
    then (λ item : string * Component,
            os_path_join (model_dir exp_const)
              (item.1 +:+ "_" +:+ pretty (Train.step st)))
         <$> periodic_save_items exp_const
    else [].
Proof.
  pose proof (periodic_paths_eval exp_const
    {| const := model_const;
       weights := optimizer_update opt exp_const (cur_weights st) data |}
    (val dataloaders (val_passes st)) exp_const (Train.step st) false)
    as Hquiet.
  iteration_cases; try rewrite Hev in Hquiet; cbn [fst] in Hquiet;
    rewrite ?periodic_paths_app, ?periodic_paths_print,
      ?periodic_paths_backward,
      ?periodic_paths_log, ?periodic_paths_validation_log, ?Hquiet,
      ?periodic_paths_if_periodic, ?periodic_paths_best,
      ?app_nil_l, ?app_nil_r;
    try (by rewrite decide_False by (intros (? & ? & ?); done)).
  all: destruct (bool_decide (_ `mod` model_save_step _ = 0)%Z) eqn:Hperiod;
    [apply bool_decide_eq_true in Hperiod; by rewrite decide_True by done
    |apply bool_decide_eq_false in Hperiod;
     by rewrite decide_False by (intros (? & ? & ?); done)].
Qed.

(** X15. No periodic checkpoint file is written twice in a run: the paths
    [<model_dir>/<name>_<step>] handed to [torch.save] are pairwise
    different, so a periodic checkpoint is never overwritten by a later
    one of the same run. *)
Theorem periodic_checkpoints_never_overwritten (model : TrainedModel)
    (dataloaders : DataLoaders) (exp_const : ExpConst) (g : bool) :
  NoDup (periodic_paths exp_const
           (train_model model dataloaders exp_const g).1).
Proof.
  cut (NoDup (periodic_paths exp_const
                (train_model model dataloaders exp_const g).1) ∧
       Forall (λ p, ∃ (item : string * Component) (s : Z),
                 item ∈ periodic_save_items exp_const ∧
                 (Train.step (initial_state model) ≤ s)%Z ∧
                 p = os_path_join (model_dir exp_const)
                       (item.1 +:+ "_" +:+ pretty s))
         (periodic_paths exp_const
            (train_model model dataloaders exp_const g).1)).
  { by intros [? _]. }
  apply (train_model_trace_ind
    (λ st tr,
       NoDup (periodic_paths exp_const tr) ∧
       Forall (λ p, ∃ (item : string * Component) (s : Z),
                 item ∈ periodic_save_items exp_const ∧
                 (Train.step st ≤ s)%Z ∧
                 p = os_path_join (model_dir exp_const)
                       (item.1 +:+ "_" +:+ pretty s))
         (periodic_paths exp_const tr))).
  - intros st. split; constructor.
  - intros opt st epoch it data. cbv zeta.
    pose proof (periodic_paths_iteration (const model) dataloaders
                  exp_const opt epoch it data st g) as Hit.
    assert (NoDup ((λ item : string * Component,
                      os_path_join (model_dir exp_const)
                        (item.1 +:+ "_" +:+ pretty (Train.step st)))
                   <$> periodic_save_items exp_const)) as Hnodup.
    { apply NoDup_fmap_2_strong.
      - intros item1 item2 Hin1 Hin2 Heq.
        by destruct (periodic_path_inj _ _ _ _ _ Hin1 Hin2 Heq).
      - unfold periodic_save_items.
        destruct (random_lang exp_const); cbn [app];
          repeat (apply NoDup_cons; split;
                  [rewrite ?not_elem_of_cons; split_and?; try done;
                   apply not_elem_of_nil|]);
          apply NoDup_nil_2. }
    assert (Forall (λ p, ∃ (item : string * Component) (s : Z),
                      item ∈ periodic_save_items exp_const ∧
                      (Train.step st ≤ s)%Z ∧
                      p = os_path_join (model_dir exp_const)
                            (item.1 +:+ "_" +:+ pretty s))
              ((λ item : string * Component,
                  os_path_join (model_dir exp_const)
                    (item.1 +:+ "_" +:+ pretty (Train.step st)))
               <$> periodic_save_items exp_const)) as Hshape.
    { apply Forall_fmap, Forall_forall. intros item Hitem.
      exists item, (Train.step st). by split_and!. }
    destruct (train_iteration (const model) dataloaders exp_const opt
                epoch it data st g) as [tr [e|st']] eqn:Hrun;
      cbn [fst snd] in *.
    + rewrite Hit. destruct (decide _); [done|]. split; constructor.
    + destruct (iteration_returns _ _ _ _ _ _ _ _ _ _ _ Hrun)
        as (_ & _ & _ & Hstep & _).
      intros tr' (Hnodup' & Hshape').
      rewrite periodic_paths_app, Hit. split.
      * destruct (decide _); [|done].
        apply NoDup_app. split_and!; [done| |done].
        intros p Hp Hp'.
        apply list_elem_of_fmap in Hp as (item & -> & Hitem).
        rewrite Forall_forall in Hshape'.
        destruct (Hshape' _ Hp') as (item' & s & Hitem' & Hs & Heq).
        destruct (periodic_path_inj _ _ _ _ _ Hitem Hitem' Heq). lia.
      * apply Forall_app. split.
        -- by destruct (decide _); [|constructor].
        -- eapply Forall_impl; [done|].
           intros p (item & s & ? & ? & ?). exists item, s.
           split_and!; [done|lia|done].
Qed.

End PeriodicPaths.

(** ** Train and eval mode *)

Section Modes.
Context `{Network}.







End Modes.

(** ** The scalars logged *)

Section Scalars.
Context `{Network}.

Lemma scalar_tags_log_events exp_const epoch it step l loss :
  scalar_tag <$> scalars (log_events exp_const epoch it step l loss)
  = if bool_decide (step `mod` log_step exp_const = 0)%Z
    then (λ name, (name, step)) <$> train_scalar_names else [].
Proof. unfold log_events. by do 2 case_bool_decide. Qed.

Lemma scalar_tags_validation_log eval_results step :
  scalar_tag <$> scalars (validation_log_events eval_results step)
  = (λ name, (name, step)) <$> val_scalar_names.
Proof. done. Qed.

Lemma scalar_tags_iteration model_const dataloaders exp_const opt epoch it
    data st g tr st' :
  train_iteration model_const dataloaders exp_const opt epoch it data st g
  = (tr, inr st') →
  scalar_tag <$> scalars tr = scalar_tags exp_const (Train.step st).
Proof.
  pose proof (omap_eval_model
    (λ e, match e with
          | AddScalar name value step => Some (name, value, step)
          | _ => None
          end)
    {| const := model_const;
       weights := optimizer_update opt exp_const (cur_weights st) data |}
    (val dataloaders (val_passes st)) exp_const (Train.step st) false
    eq_refl (λ _, eq_refl)) as Hquiet.
  unfold scalar_tags.
  iteration_cases; try rewrite Hev in Hquiet; cbn [fst] in Hquiet;
    intros Hrun; simplify_eq;
    rewrite ?scalars_app, ?fmap_app, ?scalar_tags_log_events,
      ?scalar_tags_validation_log;
    unfold scalars;
    rewrite ?omap_backward_events, ?omap_if_periodic_save_events by done;
    rewrite ?Hquiet; cbn [omap list_omap];
    rewrite ?omap_best_save_events by done;
    cbn [fmap list_fmap]; rewrite ?app_nil_l, ?app_nil_r; done.
Qed.

Lemma loops_scalar_tags model_const dataloaders exp_const opt g n epoch
    st tr st' :
  train_epochs model_const dataloaders exp_const opt n epoch st g
  = (tr, inr st') →
  scalar_tag <$> scalars tr
  = steps_from (Train.step st) (length (all_batches dataloaders n epoch))
    ≫= scalar_tags exp_const.
Proof.
  intros Hrun.
  apply (train_epochs_returns model_const dataloaders exp_const opt g
    (λ st ds tr st',
       Train.step st' = (Train.step st + Z.of_nat (length ds))%Z ∧
       scalar_tag <$> scalars tr
       = steps_from (Train.step st) (length ds) ≫= scalar_tags exp_const))
    in Hrun.
  - by destruct Hrun.
  - intros st0. split; [cbn [length]; lia|done].
  - intros st0 epoch0 it0 data tr0 st1 Hit ds tr1 st2 (Hstep & Htags).
    destruct (iteration_returns _ _ _ _ _ _ _ _ _ _ _ Hit)
      as (_ & _ & _ & Hstep1 & _).
    split; [cbn [length]; lia|].
    rewrite scalars_app, fmap_app, Htags, Hstep1.
    erewrite scalar_tags_iteration by exact Hit.
    cbn [length steps_from]. by rewrite bind_cons.
Qed.

(** X17. In a run of [train_model] that returns, the names and steps of
    the scalars sent to tensorboard are, iteration by iteration: the five
    training scalars when the step is a multiple of [log_step], followed
    by the four validation scalars when it is a multiple of [val_step],
    each logged at the step of the iteration. *)
Theorem complete_run_scalars (model : TrainedModel)
    (dataloaders : DataLoaders) (exp_const : ExpConst) (g : bool) :
  (train_model model dataloaders exp_const g).2 = inr () →
  let tr := (train_model model dataloaders exp_const g).1 in
  let batches :=
    all_batches dataloaders (Z.to_nat (num_epochs exp_const)) 0 in
  let steps :=
    steps_from (initial_step (model_num (const model))) (length batches) in
  scalar_tag <$> scalars tr = steps ≫= scalar_tags exp_const.
Proof.
  intros Hret. cbv zeta.
  destruct (train_model_returns _ _ _ _ Hret) as (opt & st' & _ & Hrun).
  exact (loops_scalar_tags _ _ _ _ _ _ _ _ _ _ Hrun).
Qed.

End Scalars.

Lemma complete_run_scalars_witness :
  scalar_tag
    <$> scalars (@train_model toy_network toy_model toy_dataloaders
                   toy_exp_const true).1
  = [("Self_Sup_Loss/Train", 0%Z); ("Lang_Sup_Loss/Train", 0%Z);
     ("Neg_Noun_Loss/Train", 0%Z); ("Loss/Train", 0%Z); ("Lr", 0%Z);
     ("Self_Sup_Loss/Val", 0%Z); ("Lang_Sup_Loss/Val", 0%Z);
     ("Neg_Noun_Loss/Val", 0%Z); ("Loss/Val", 0%Z);
     ("Self_Sup_Loss/Train", 1%Z); ("Lang_Sup_Loss/Train", 1%Z);
     ("Neg_Noun_Loss/Train", 1%Z); ("Loss/Train", 1%Z); ("Lr", 1%Z);
     ("Self_Sup_Loss/Val", 1%Z); ("Lang_Sup_Loss/Val", 1%Z);
     ("Neg_Noun_Loss/Val", 1%Z); ("Loss/Val", 1%Z)].
Proof.
  apply (complete_run_scalars toy_model toy_dataloaders toy_exp_const true).
  reflexivity.
Defined.
